(** * EntitySystem: the entity pool of src/entitysystem.cpp

    A shallow embedding of the [EntitySystem] namespace: a fixed-capacity
    pool of entity ids (a dense alive array, a free list used as a stack),
    one position per id and an occupancy grid.

    Conventions of the embedding.
    - A C++ [int] is a [Z]. Coordinate arithmetic ([get_new_position]) is
      checked: a result outside the 32-bit range is signed overflow, which
      the language leaves undefined.
    - A fixed-size array is a [list]; reading or writing outside of it is
      undefined in C++.
    - Undefined behaviour is the [None] of the option monad, so every
      operation that indexes an array returns an [option]. [Some] results
      are the defined executions.
    - The [TraceLog] calls are diagnostic output and are left out. *)

From Stdlib Require Import ZArith Lia.
From stdpp Require Import base tactics option list list_numbers.

Local Open Scope Z_scope.

Module EntitySystem.

(** ** Machine integers *)

Definition INT_MIN : Z := -2147483648.
Definition INT_MAX : Z := 2147483647.

Definition int_range (z : Z) : Prop := INT_MIN <= z <= INT_MAX.

Definition in_int (z : Z) : bool := (INT_MIN <=? z) && (z <=? INT_MAX).

(** [a + b] and [a - b] on [int]: undefined on overflow. *)
Definition int_add (a b : Z) : option Z :=
  if in_int (a + b) then Some (a + b) else None.

Definition int_sub (a b : Z) : option Z :=
  if in_int (a - b) then Some (a - b) else None.

(** ** Arrays *)

(** [a[i]] as an rvalue. *)
Definition arr_get {A : Type} (a : list A) (i : Z) : option A :=
  if 0 <=? i then a !! Z.to_nat i else None.

(** [a[i] = v]. *)
Definition arr_set {A : Type} (a : list A) (i : Z) (v : A) : option (list A) :=
  if (0 <=? i) && (i <? Z.of_nat (length a))
  then Some (<[Z.to_nat i := v]> a)
  else None.

(** ** Data model *)

(** Modelled from the spec: the declarations of include/main.hpp
    ([Position], [Direction], [Tile], [EntityData] and the constants
    [MAX_ENTITIES], [GRID_WIDTH], [GRID_HEIGHT]) are not among the sources.
    [Position] is a pair of [int] coordinates (they are printed with %d). *)
Record Position : Type := mkPosition { pos_x : Z; pos_y : Z }.

(** Modelled from the spec: the four compass enumerators the source
    switches on. [OTHER v] is a [Direction] object holding a value [v] that
    is none of them; it reaches the [default:] branch. *)
Inductive Direction : Type :=
  | NORTH
  | EAST
  | SOUTH
  | WEST
  | OTHER (v : Z).

(** Modelled from the spec: of a [Tile] only the [traversable] flag is
    read. *)
Record Tile : Type := mkTile { traversable : bool }.

(** [const Tile map[][WORLD_HEIGHT]]: an array of columns. *)
Definition TileMap : Type := list (list Tile).

(** Modelled from the spec: the pool, with the member names the source
    uses. [grid] is an array of [GRID_WIDTH] columns of [GRID_HEIGHT]
    [std::optional<int>] cells. *)
Record EntityData : Type := mkEntityData {
  positions : list Position;
  alive_indices : list Z;
  dead_indices : list Z;
  alive_count : Z;
  dead_count : Z;
  grid : list (list (option Z))
}.

#[global] Instance Position_eq_dec : EqDecision Position.
Proof. solve_decision. Defined.

#[global] Instance EntityData_eq_dec : EqDecision EntityData.
Proof. solve_decision. Defined.

(** [g[pos.x][pos.y]] *)
Definition grid_get {A : Type} (g : list (list A)) (pos : Position) : option A :=
  column ← arr_get g (pos_x pos);
  arr_get column (pos_y pos).

(** [g[pos.x][pos.y] = v] *)
Definition grid_set {A : Type} (g : list (list A)) (pos : Position) (v : A)
  : option (list (list A)) :=
  column ← arr_get g (pos_x pos);
  column' ← arr_set column (pos_y pos) v;
  arr_set g (pos_x pos) column'.

(** [std::optional::has_value] *)
Definition has_value {A : Type} (c : option A) : bool :=
  match c with
  | Some _ => true
  | None => false
  end.

Definition set_positions (d : EntityData) (ps : list Position) : EntityData :=
  mkEntityData ps (alive_indices d) (dead_indices d)
               (alive_count d) (dead_count d) (grid d).

Definition set_dead_indices (d : EntityData) (l : list Z) : EntityData :=
  mkEntityData (positions d) (alive_indices d) l
               (alive_count d) (dead_count d) (grid d).

Definition set_grid (d : EntityData) (g : list (list (option Z))) : EntityData :=
  mkEntityData (positions d) (alive_indices d) (dead_indices d)
               (alive_count d) (dead_count d) g.

(** ** The operations *)

(** [get_new_position]: one checked step in direction [dir]. *)
Definition get_new_position (current_pos : Position) (dir : Direction)
  : option Position :=
  match dir with
  | NORTH =>
      y' ← int_sub (pos_y current_pos) 1;
      Some (mkPosition (pos_x current_pos) y')
  | EAST =>
      x' ← int_sub (pos_x current_pos) 1;
      Some (mkPosition x' (pos_y current_pos))
  | SOUTH =>
      y' ← int_add (pos_y current_pos) 1;
      Some (mkPosition (pos_x current_pos) y')
  | WEST =>
      x' ← int_add (pos_x current_pos) 1;
      Some (mkPosition x' (pos_y current_pos))
  | OTHER _ => Some current_pos
  end.

Section Pool.

(** The constants of the missing header. *)
Variables MAX_ENTITIES GRID_WIDTH GRID_HEIGHT : Z.

(** [initialize], first loop: one iteration per index of the list. *)
Fixpoint init_loop (indices : list Z) (d : EntityData) : option EntityData :=
  match indices with
  | [] => Some d
  | i :: rest =>
      dead ← arr_set (dead_indices d) i i;
      ps ← arr_set (positions d) i (mkPosition 0 0);
      init_loop rest (set_positions (set_dead_indices d dead) ps)
  end.

(** [column.fill(std::nullopt)] on every column. *)
Definition clear_grid (g : list (list (option Z))) : list (list (option Z)) :=
  (λ column : list (option Z), (λ _ : option Z, @None Z) <$> column) <$> g.

(** [initialize]: writes [dead_indices], [positions] and [grid]; the two
    counters and [alive_indices] are not assigned. *)
Definition initialize (d : EntityData) : option EntityData :=
  d1 ← init_loop (seqZ 0 MAX_ENTITIES) d;
  Some (set_grid d1 (clear_grid (grid d1))).

Definition is_valid_position (pos : Position) : bool :=
  (0 <=? pos_x pos) && (pos_x pos <? GRID_WIDTH) &&
  (0 <=? pos_y pos) && (pos_y pos <? GRID_HEIGHT).

(** [is_occupied]: [&&] reads the grid only at a valid position. *)
Definition is_occupied (data : EntityData) (pos : Position) : option bool :=
  if is_valid_position pos
  then cell ← grid_get (grid data) pos; Some (has_value cell)
  else Some false.

(** [is_traversable]: the tile is read only inside the [if]. *)
Definition is_traversable (data : EntityData) (map : TileMap) (pos : Position)
  : option bool :=
  if is_valid_position pos then
    occupied ← is_occupied data pos;
    if negb occupied
    then tile ← grid_get map pos; Some (traversable tile)
    else Some false
  else Some false.

(** [create_entity]: the result pairs the pool after the call with the
    returned [std::optional<int>]. The counter arithmetic is plain: each
    counter is used as an index of an array of [MAX_ENTITIES] elements next
    to the arithmetic, so an execution with in-bounds accesses does not
    overflow, and [dead_count - 1] at [INT_MIN] is a negative index. *)
Definition create_entity (data : EntityData) (map : TileMap) (pos : Position)
  : option (EntityData * option Z) :=
  if dead_count data =? 0 then Some (data, None) else
  t ← is_traversable data map pos;
  if negb t then Some (data, None) else
  entity_idx ← arr_get (dead_indices data) (dead_count data - 1);
  alive ← arr_set (alive_indices data) (alive_count data) entity_idx;
  ps ← arr_set (positions data) entity_idx pos;
  g ← grid_set (grid data) pos (Some entity_idx);
  Some (mkEntityData ps alive (dead_indices data)
                     (alive_count data + 1) (dead_count data - 1) g,
        Some entity_idx).

(** The body of the [if] inside the loop of [kill_entity], at index [i]. *)
Definition kill_at (data : EntityData) (i entity_idx : Z) : option EntityData :=
  pos ← arr_get (positions data) entity_idx;
  g ← grid_set (grid data) pos None;
  last ← arr_get (alive_indices data) (alive_count data - 1);
  alive ← arr_set (alive_indices data) i last;
  dead ← arr_set (dead_indices data) (dead_count data) entity_idx;
  Some (mkEntityData (positions data) alive dead
                     (alive_count data - 1) (dead_count data + 1) g).

(** The loop of [kill_entity] from index [i] on. The bound [alive_count]
    is read again at every test. [steps] bounds the number of iterations,
    and running out of them is [None] as well; [kill_loop_steps] shows that
    with [alive_count - i] steps or more, as [kill_entity] gives, the loop
    leaves through its test and the result does not depend on the number. *)
Fixpoint kill_loop (steps : nat) (i entity_idx : Z) (data : EntityData)
  : option EntityData :=
  if i <? alive_count data then
    match steps with
    | O => None
    | S steps' =>
        a ← arr_get (alive_indices data) i;
        if a =? entity_idx
        then data' ← kill_at data i entity_idx;
             kill_loop steps' (i + 1) entity_idx data'
        else kill_loop steps' (i + 1) entity_idx data
    end
  else Some data.

Definition kill_entity (data : EntityData) (entity_idx : Z) : option EntityData :=
  kill_loop (Z.to_nat (alive_count data)) 0 entity_idx data.

(** [move_entity]: the pool after the call and the returned [bool]. *)
Definition move_entity (data : EntityData) (map : TileMap) (entity_idx : Z)
    (dir : Direction) : option (EntityData * bool) :=
  current ← arr_get (positions data) entity_idx;
  new_pos ← get_new_position current dir;
  t ← is_traversable data map new_pos;
  if (t : bool) then
    g1 ← grid_set (grid data) current None;
    g2 ← grid_set g1 new_pos (Some entity_idx);
    ps ← arr_set (positions data) entity_idx new_pos;
    Some (set_positions (set_grid data g2) ps, true)
  else Some (data, false).


(** ** Invariants of the pool *)

(** [alive_indices[0..alive_count)] and [dead_indices[0..dead_count)]. *)
Definition alive_list (d : EntityData) : list Z :=
  take (Z.to_nat (alive_count d)) (alive_indices d).

Definition dead_list (d : EntityData) : list Z :=
  take (Z.to_nat (dead_count d)) (dead_indices d).

(** A grid has [GRID_WIDTH] columns of [GRID_HEIGHT] cells. *)
Definition grid_shape {A : Type} (g : list (list A)) : Prop :=
  length g = Z.to_nat GRID_WIDTH ∧
  Forall (λ column, length column = Z.to_nat GRID_HEIGHT) g.

(** The array sizes the types of the members fix. *)
Definition shape (d : EntityData) : Prop :=
  length (positions d) = Z.to_nat MAX_ENTITIES ∧
  length (alive_indices d) = Z.to_nat MAX_ENTITIES ∧
  length (dead_indices d) = Z.to_nat MAX_ENTITIES ∧
  grid_shape (grid d).

(** The partition invariant: the counters add up to the capacity and the
    alive ids followed by the free ids are the ids [0 .. MAX_ENTITIES-1],
    each once. *)
Definition partition_inv (d : EntityData) : Prop :=
  0 <= alive_count d ∧ 0 <= dead_count d ∧
  alive_count d + dead_count d = MAX_ENTITIES ∧
  alive_list d ++ dead_list d ≡ₚ seqZ 0 MAX_ENTITIES.

(** Grid/position consistency, in both directions. *)
Definition grid_consistent (d : EntityData) : Prop :=
  (∀ e, e ∈ alive_list d →
        ∃ p, arr_get (positions d) e = Some p ∧
             grid_get (grid d) p = Some (Some e)) ∧
  (∀ p e, grid_get (grid d) p = Some (Some e) →
          e ∈ alive_list d ∧ arr_get (positions d) e = Some p).

(** The tile map has a tile for every cell of the grid. *)
Definition map_covers (map : TileMap) : Prop :=
  ∀ pos, is_valid_position pos = true → is_Some (grid_get map pos).

(** Modelled from the spec: the declaration of [EntityData] is not among
    the sources and [initialize] assigns neither counter, so the values the
    spec gives for an initialized pool ([alive_count = 0],
    [dead_count = MAX_ENTITIES]) are those of a freshly declared pool. The
    contents of its arrays are arbitrary. *)
Definition freshly_declared (d : EntityData) : Prop :=
  shape d ∧ alive_count d = 0 ∧ dead_count d = MAX_ENTITIES.

(** The pools a program can reach: [initialize] on a freshly declared pool,
    then any calls of the three mutating operations, with any arguments,
    whose behaviour is defined. *)
Inductive reachable : EntityData → Prop :=
  | reach_initialize d0 d :
      freshly_declared d0 → initialize d0 = Some d → reachable d
  | reach_create d map pos d' r :
      reachable d → create_entity d map pos = Some (d', r) → reachable d'
  | reach_kill d entity_idx d' :
      reachable d → kill_entity d entity_idx = Some d' → reachable d'
  | reach_move d map entity_idx dir d' moved :
      reachable d → move_entity d map entity_idx dir = Some (d', moved) →
      reachable d'.

(** The pools a program reaches when it keeps to the one precondition the
    operations do not test themselves: [move_entity] is called with alive
    ids only. [create_entity] and [kill_entity] take any argument. *)
Inductive reachable_alive : EntityData → Prop :=
  | ra_initialize d0 d :
      freshly_declared d0 → initialize d0 = Some d → reachable_alive d
  | ra_create d map pos d' r :
      reachable_alive d → create_entity d map pos = Some (d', r) →
      reachable_alive d'
  | ra_kill d entity_idx d' :
      reachable_alive d → kill_entity d entity_idx = Some d' →
      reachable_alive d'
  | ra_move d map entity_idx dir d' moved :
      reachable_alive d → entity_idx ∈ alive_list d →
      move_entity d map entity_idx dir = Some (d', moved) →
      reachable_alive d'.

(** The pools of the words "[initialize] followed by any sequence of
    [create_entity], [kill_entity], [move_entity] calls" when nothing is
    asked of the pool [initialize] is called on but its declared shape. *)
Inductive reachable_after_initialize : EntityData → Prop :=
  | rai_initialize d0 d :
      shape d0 → initialize d0 = Some d → reachable_after_initialize d
  | rai_create d map pos d' r :
      reachable_after_initialize d →
      create_entity d map pos = Some (d', r) →
      reachable_after_initialize d'
  | rai_kill d entity_idx d' :
      reachable_after_initialize d →
      kill_entity d entity_idx = Some d' →
      reachable_after_initialize d'
  | rai_move d map entity_idx dir d' moved :
      reachable_after_initialize d →
      move_entity d map entity_idx dir = Some (d', moved) →
      reachable_after_initialize d'.

End Pool.


(** ** A small pool for closed examples

    Capacity 5 on a 10 x 10 grid whose tiles are all traversable. *)

Definition demo_map : TileMap := replicate 10 (replicate 10 (mkTile true)).

(** A freshly declared pool of that size. *)
Definition demo_fresh : EntityData :=
  mkEntityData (replicate 5 (mkPosition 0 0)) (replicate 5 0) (replicate 5 0)
               0 5 (replicate 10 (replicate 10 None)).

(** The pool [initialize] makes of it. *)
Definition demo_pool : EntityData :=
  mkEntityData (replicate 5 (mkPosition 0 0)) (replicate 5 0) [0; 1; 2; 3; 4]
               0 5 (replicate 10 (replicate 10 None)).

(** The pool after [create_entity] at (2,3): entity 4 lives there. *)
Definition demo_used : EntityData :=
  mkEntityData
    [mkPosition 0 0; mkPosition 0 0; mkPosition 0 0; mkPosition 0 0;
     mkPosition 2 3]
    [4; 0; 0; 0; 0] [0; 1; 2; 3; 4] 1 4
    (<[2%nat := <[3%nat := Some 4]> (replicate 10 None)]>
       (replicate 10 (replicate 10 None))).

(** The pool after five [create_entity] calls, at (0,0), (1,0), ..., (4,0):
    the ids come out as 4, 3, 2, 1, 0. *)
Definition demo_five : EntityData :=
  mkEntityData
    [mkPosition 4 0; mkPosition 3 0; mkPosition 2 0; mkPosition 1 0;
     mkPosition 0 0]
    [4; 3; 2; 1; 0] [0; 1; 2; 3; 4] 5 0
    (((λ id : Z, Some id :: replicate 9 None) <$> [4; 3; 2; 1; 0])
     ++ replicate 5 (replicate 10 None)).

(** The LIFO scenario of the spec: capacity 5, five creates, kill the
    entity created third, create once more. The result is the id killed
    and what the last create returned. *)
Definition lifo_scenario : option (Z * option Z) :=
  d0 ← initialize 5 demo_fresh;
  '(d1, _) ← create_entity 10 10 d0 demo_map (mkPosition 0 0);
  '(d2, _) ← create_entity 10 10 d1 demo_map (mkPosition 1 0);
  '(d3, third) ← create_entity 10 10 d2 demo_map (mkPosition 2 0);
  '(d4, _) ← create_entity 10 10 d3 demo_map (mkPosition 3 0);
  '(d5, _) ← create_entity 10 10 d4 demo_map (mkPosition 4 0);
  id ← third;
  d6 ← kill_entity d5 id;
  '(_, next) ← create_entity 10 10 d6 demo_map (mkPosition 5 5);
  Some (id, next).

(** A pool of that size with every member zero. *)
Definition demo_zeroed : EntityData :=
  mkEntityData (replicate 5 (mkPosition 0 0)) (replicate 5 0) (replicate 5 0)
               0 0 (replicate 10 (replicate 10 None)).

(** [demo_five] after [kill_entity] of id 2: the last alive entry 0 has
    taken its slot and id 2 is the one free id. *)
Definition demo_four : EntityData :=
  mkEntityData
    [mkPosition 4 0; mkPosition 3 0; mkPosition 2 0; mkPosition 1 0;
     mkPosition 0 0]
    [4; 3; 0; 1; 0] [2; 1; 2; 3; 4] 4 1
    (((λ id : Z, Some id :: replicate 9 None) <$> [4; 3])
     ++ [replicate 10 None]
     ++ ((λ id : Z, Some id :: replicate 9 None) <$> [1; 0])
     ++ replicate 5 (replicate 10 None)).

(** What the spec says of a pool on which [initialize] has run. *)
Definition initialized (MAX_ENTITIES GRID_WIDTH GRID_HEIGHT : Z)
    (d : EntityData) : Prop :=
  dead_indices d = seqZ 0 MAX_ENTITIES ∧
  alive_count d = 0 ∧
  dead_count d = MAX_ENTITIES ∧
  Forall (λ p, p = mkPosition 0 0) (positions d) ∧
  ∀ pos, is_valid_position GRID_WIDTH GRID_HEIGHT pos = true →
         grid_get (grid d) pos = Some None.

(** The ids stored in the cells of a grid, column by column. *)
Definition occupants (g : list (list (option Z))) : list Z :=
  omap id (concat g).

(** * Properties *)

(** ** Arrays and integers: basic facts *)

Lemma in_int_true (z : Z) : in_int z = true ↔ int_range z.
Proof. unfold in_int, int_range. rewrite andb_true_iff. lia. Qed.

Lemma int_add_Some (a b : Z) : int_range (a + b) → int_add a b = Some (a + b).
Proof. intros H. unfold int_add. apply in_int_true in H. by rewrite H. Qed.

Lemma int_sub_Some (a b : Z) : int_range (a - b) → int_sub a b = Some (a - b).
Proof. intros H. unfold int_sub. apply in_int_true in H. by rewrite H. Qed.

Lemma arr_get_Some {A : Type} (a : list A) (i : Z) (v : A) :
  arr_get a i = Some v ↔ 0 <= i ∧ a !! Z.to_nat i = Some v.
Proof.
  unfold arr_get. destruct (Z.leb_spec 0 i); split; try done.
  - intros [_ ?]. done.
  - intros [? _]. lia.
Qed.

Lemma arr_get_bounds {A : Type} (a : list A) (i : Z) (v : A) :
  arr_get a i = Some v → 0 <= i < Z.of_nat (length a).
Proof.
  rewrite arr_get_Some. intros [? Hl]. apply lookup_lt_Some in Hl. lia.
Qed.

Lemma arr_get_is_Some {A : Type} (a : list A) (i : Z) :
  0 <= i < Z.of_nat (length a) → is_Some (arr_get a i).
Proof.
  intros H. destruct (lookup_lt_is_Some_2 a (Z.to_nat i)) as [v Hv]; [lia |].
  exists v. apply arr_get_Some. split; [lia | done].
Qed.

Lemma arr_get_None {A : Type} (a : list A) (i : Z) :
  ¬ (0 <= i < Z.of_nat (length a)) → arr_get a i = None.
Proof.
  intros H. destruct (arr_get a i) as [v |] eqn:E; [| done].
  apply arr_get_bounds in E. lia.
Qed.

Lemma arr_set_Some {A : Type} (a a' : list A) (i : Z) (v : A) :
  arr_set a i v = Some a' ↔
  0 <= i < Z.of_nat (length a) ∧ a' = <[Z.to_nat i := v]> a.
Proof.
  unfold arr_set.
  destruct (Z.leb_spec 0 i), (Z.ltb_spec i (Z.of_nat (length a))); simpl;
    split; try (intros [= <-]; split; [lia | done]); try done;
    try (intros [? _]; lia).
  intros [_ ->]. done.
Qed.

Lemma arr_set_in {A : Type} (a : list A) (i : Z) (v : A) :
  0 <= i < Z.of_nat (length a) → arr_set a i v = Some (<[Z.to_nat i := v]> a).
Proof. intros H. by apply arr_set_Some. Qed.

Lemma arr_set_length {A : Type} (a a' : list A) (i : Z) (v : A) :
  arr_set a i v = Some a' → length a' = length a.
Proof. rewrite arr_set_Some. intros [_ ->]. apply length_insert. Qed.

Lemma arr_get_set_eq {A : Type} (a a' : list A) (i : Z) (v : A) :
  arr_set a i v = Some a' → arr_get a' i = Some v.
Proof.
  rewrite arr_set_Some. intros [Hi ->]. apply arr_get_Some. split; [lia |].
  apply list_lookup_insert_eq. lia.
Qed.

Lemma arr_get_set_ne {A : Type} (a a' : list A) (i j : Z) (v : A) :
  arr_set a i v = Some a' → i ≠ j → arr_get a' j = arr_get a j.
Proof.
  rewrite arr_set_Some. intros [Hi ->] Hne. unfold arr_get.
  destruct (Z.leb_spec 0 j); [| done].
  apply list_lookup_insert_ne. lia.
Qed.

Lemma grid_get_Some {A : Type} (g : list (list A)) (pos : Position) (v : A) :
  grid_get g pos = Some v ↔
  ∃ column, arr_get g (pos_x pos) = Some column ∧
            arr_get column (pos_y pos) = Some v.
Proof. unfold grid_get. apply bind_Some. Qed.

Lemma grid_set_Some {A : Type} (g g' : list (list A)) (pos : Position) (v : A) :
  grid_set g pos v = Some g' ↔
  ∃ column column', arr_get g (pos_x pos) = Some column ∧
                    arr_set column (pos_y pos) v = Some column' ∧
                    arr_set g (pos_x pos) column' = Some g'.
Proof.
  unfold grid_set. rewrite bind_Some. split.
  - intros (c & Hc & H). apply bind_Some in H as (c' & Hc' & H). eauto.
  - intros (c & c' & Hc & Hc' & H). exists c. split; [done |].
    apply bind_Some. eauto.
Qed.

Lemma grid_get_set_eq {A : Type} (g g' : list (list A)) (pos : Position) (v : A) :
  grid_set g pos v = Some g' → grid_get g' pos = Some v.
Proof.
  rewrite grid_set_Some. intros (c & c' & Hc & Hc' & Hg).
  apply grid_get_Some. exists c'. split.
  - by eapply arr_get_set_eq.
  - by eapply arr_get_set_eq.
Qed.

Lemma grid_get_set_ne {A : Type} (g g' : list (list A)) (pos pos' : Position)
    (v : A) :
  grid_set g pos v = Some g' → pos ≠ pos' → grid_get g' pos' = grid_get g pos'.
Proof.
  rewrite grid_set_Some. intros (c & c' & Hc & Hc' & Hg) Hne.
  unfold grid_get. destruct (decide (pos_x pos = pos_x pos')) as [Hx | Hx].
  - rewrite <- Hx. rewrite (arr_get_set_eq _ _ _ _ Hg), Hc. simpl.
    eapply arr_get_set_ne; [done |]. intros Hy. apply Hne.
    destruct pos, pos'. simpl in *. congruence.
  - by rewrite (arr_get_set_ne _ _ _ _ _ Hg Hx).
Qed.

(** *** Lists used as stacks and dense arrays *)

Lemma take_push {A : Type} (l : list A) (n : nat) (x : A) :
  (n < length l)%nat → take (S n) (<[n := x]> l) = take n l ++ [x].
Proof.
  intros Hn. rewrite (take_S_r _ _ x) by (by apply list_lookup_insert_eq).
  by rewrite take_insert_ge.
Qed.

Lemma take_pop {A : Type} (l : list A) (n : nat) (x : A) :
  l !! n = Some x → take (S n) l = take n l ++ [x].
Proof. apply take_S_r. Qed.

(** Removing the element at index [k] of a list by overwriting it with the
    last element and dropping the last slot. *)
Lemma swap_remove_perm {A : Type} (l : list A) (k : nat) (x y : A) :
  l !! k = Some x → l !! (length l - 1)%nat = Some y →
  l ≡ₚ x :: take (length l - 1) (<[k := y]> l).
Proof.
  intros Hk Hlast. pose proof (lookup_lt_Some _ _ _ Hk) as Hlt.
  destruct (decide (k = length l - 1)%nat) as [-> | Hne].
  - assert (x = y) as -> by congruence.
    rewrite take_insert_ge by lia.
    rewrite <- (take_drop_middle l (length l - 1) y Hlast) at 1.
    rewrite drop_ge by lia. by rewrite <- Permutation_cons_append.
  - rewrite take_insert_lt by lia.
    assert (take (length l - 1) l !! k = Some x) as Hk'
      by (rewrite lookup_take_lt by lia; done).
    rewrite <- (take_drop_middle l (length l - 1) y Hlast) at 1.
    rewrite drop_ge by lia.
    rewrite <- (take_drop_middle _ _ _ Hk') at 1.
    rewrite insert_take_drop by (rewrite length_take; lia).
    rewrite <- !app_assoc. simpl.
    rewrite <- Permutation_middle. f_equiv.
    rewrite <- Permutation_middle.
    by rewrite app_nil_r.
Qed.

(** C8: [get_new_position] is a function of its two arguments alone. On
    [int] coordinates (x, y) it yields NORTH -> (x, y-1), SOUTH -> (x, y+1),
    EAST -> (x-1, y), WEST -> (x+1, y), each wherever the new coordinate is
    again an [int], and for a direction value that is none of the four
    enumerators it yields (x, y) itself. *)
Theorem get_new_position_deltas (x y : Z) :
  int_range x → int_range y →
  (INT_MIN < y →
   get_new_position (mkPosition x y) NORTH = Some (mkPosition x (y - 1))) ∧
  (y < INT_MAX →
   get_new_position (mkPosition x y) SOUTH = Some (mkPosition x (y + 1))) ∧
  (INT_MIN < x →
   get_new_position (mkPosition x y) EAST = Some (mkPosition (x - 1) y)) ∧
  (x < INT_MAX →
   get_new_position (mkPosition x y) WEST = Some (mkPosition (x + 1) y)) ∧
  (∀ v, get_new_position (mkPosition x y) (OTHER v) = Some (mkPosition x y)).
Proof.
  unfold int_range. intros Hx Hy. repeat split; try intros Hb; simpl.
  - rewrite int_sub_Some; [done | unfold int_range; lia].
  - rewrite int_add_Some; [done | unfold int_range; lia].
  - rewrite int_sub_Some; [done | unfold int_range; lia].
  - rewrite int_add_Some; [done | unfold int_range; lia].
Qed.

(** The deltas at (2,3). *)
Lemma get_new_position_deltas_witness :
  int_range 2 ∧ int_range 3 ∧
  get_new_position (mkPosition 2 3) NORTH = Some (mkPosition 2 2) ∧
  get_new_position (mkPosition 2 3) SOUTH = Some (mkPosition 2 4) ∧
  get_new_position (mkPosition 2 3) EAST = Some (mkPosition 1 3) ∧
  get_new_position (mkPosition 2 3) WEST = Some (mkPosition 3 3) ∧
  get_new_position (mkPosition 2 3) (OTHER 17) = Some (mkPosition 2 3).
Proof.
  assert (int_range 2) as H2 by (unfold int_range, INT_MIN, INT_MAX; lia).
  assert (int_range 3) as H3 by (unfold int_range, INT_MIN, INT_MAX; lia).
  destruct (get_new_position_deltas 2 3 H2 H3) as (HN & HS & HE & HW & HO).
  split; [exact H2 |]. split; [exact H3 |].
  split; [apply HN; unfold INT_MIN; lia |].
  split; [apply HS; unfold INT_MAX; lia |].
  split; [apply HE; unfold INT_MIN; lia |].
  split; [apply HW; unfold INT_MAX; lia |].
  apply HO.
Defined.

Section Facts.

Variables MAX_ENTITIES GRID_WIDTH GRID_HEIGHT : Z.

Local Abbreviation initialize := (initialize MAX_ENTITIES).
Local Abbreviation is_valid_position := (is_valid_position GRID_WIDTH GRID_HEIGHT).
Local Abbreviation is_occupied := (is_occupied GRID_WIDTH GRID_HEIGHT).
Local Abbreviation is_traversable := (is_traversable GRID_WIDTH GRID_HEIGHT).
Local Abbreviation create_entity := (create_entity GRID_WIDTH GRID_HEIGHT).
Local Abbreviation move_entity := (move_entity GRID_WIDTH GRID_HEIGHT).
Local Abbreviation grid_shape := (grid_shape GRID_WIDTH GRID_HEIGHT).
Local Abbreviation shape := (shape MAX_ENTITIES GRID_WIDTH GRID_HEIGHT).
Local Abbreviation partition_inv := (partition_inv MAX_ENTITIES).
Local Abbreviation map_covers := (map_covers GRID_WIDTH GRID_HEIGHT).
Local Abbreviation freshly_declared :=
  (freshly_declared MAX_ENTITIES GRID_WIDTH GRID_HEIGHT).
Local Abbreviation reachable := (reachable MAX_ENTITIES GRID_WIDTH GRID_HEIGHT).
Local Abbreviation reachable_alive :=
  (reachable_alive MAX_ENTITIES GRID_WIDTH GRID_HEIGHT).

Lemma is_valid_position_true (pos : Position) :
  is_valid_position pos = true ↔
  0 <= pos_x pos < GRID_WIDTH ∧ 0 <= pos_y pos < GRID_HEIGHT.
Proof.
  unfold EntitySystem.is_valid_position. rewrite !andb_true_iff. lia.
Qed.

Lemma grid_shape_get {A : Type} (g : list (list A)) (pos : Position) :
  grid_shape g → is_valid_position pos = true → is_Some (grid_get g pos).
Proof.
  intros [Hw Hh] Hv. apply is_valid_position_true in Hv.
  destruct (arr_get_is_Some g (pos_x pos)) as [column Hc]; [lia |].
  assert (length column = Z.to_nat GRID_HEIGHT) as Hlen.
  { apply arr_get_Some in Hc as [_ Hc].
    by apply (proj1 (Forall_lookup _ _) Hh _ _ Hc). }
  destruct (arr_get_is_Some column (pos_y pos)) as [cell Hcell]; [lia |].
  exists cell. apply grid_get_Some. eauto.
Qed.

Lemma grid_shape_get_valid {A : Type} (g : list (list A)) (pos : Position)
    (cell : A) :
  grid_shape g → grid_get g pos = Some cell → is_valid_position pos = true.
Proof.
  intros [Hw Hh] Hg.
  apply grid_get_Some in Hg as (column & Hc & Hcell).
  pose proof (arr_get_bounds _ _ _ Hc) as Hx.
  pose proof (arr_get_bounds _ _ _ Hcell) as Hy.
  apply arr_get_Some in Hc as [_ Hc].
  rewrite (proj1 (Forall_lookup _ _) Hh _ _ Hc) in Hy.
  apply is_valid_position_true. lia.
Qed.

Lemma grid_shape_set {A : Type} (g : list (list A)) (pos : Position) (v : A) :
  grid_shape g → is_valid_position pos = true → is_Some (grid_set g pos v).
Proof.
  intros [Hw Hh] Hv. apply is_valid_position_true in Hv.
  destruct (arr_get_is_Some g (pos_x pos)) as [column Hc]; [lia |].
  assert (length column = Z.to_nat GRID_HEIGHT) as Hlen.
  { apply arr_get_Some in Hc as [_ Hc].
    by apply (proj1 (Forall_lookup _ _) Hh _ _ Hc). }
  eexists. apply grid_set_Some. exists column. eexists.
  split; [done |]. split; apply arr_set_in; lia.
Qed.

Lemma grid_set_shape {A : Type} (g g' : list (list A)) (pos : Position)
    (v : A) :
  grid_shape g → grid_set g pos v = Some g' → grid_shape g'.
Proof.
  intros [Hw Hh] Hset.
  apply grid_set_Some in Hset as (column & column' & Hc & Hc' & Hg).
  apply arr_set_Some in Hg as [_ ->]. split.
  - by rewrite length_insert.
  - apply Forall_insert; [done |].
    rewrite (arr_set_length _ _ _ _ Hc').
    apply arr_get_Some in Hc as [_ Hc].
    by apply (proj1 (Forall_lookup _ _) Hh _ _ Hc).
Qed.

Lemma shape_grid_get (d : EntityData) (pos : Position) :
  shape d → is_valid_position pos = true → is_Some (grid_get (grid d) pos).
Proof. intros (_ & _ & _ & Hg). by apply grid_shape_get. Qed.

Lemma is_occupied_invalid (d : EntityData) (pos : Position) :
  is_valid_position pos = false → is_occupied d pos = Some false.
Proof. intros Hv. unfold EntitySystem.is_occupied. by rewrite Hv. Qed.

Lemma is_occupied_valid (d : EntityData) (pos : Position) :
  is_valid_position pos = true →
  is_occupied d pos = has_value <$> grid_get (grid d) pos.
Proof.
  intros Hv. unfold EntitySystem.is_occupied. rewrite Hv.
  by destruct (grid_get (grid d) pos).
Qed.

Lemma is_occupied_true (d : EntityData) (pos : Position) :
  is_occupied d pos = Some true ↔
  is_valid_position pos = true ∧ ∃ e, grid_get (grid d) pos = Some (Some e).
Proof.
  destruct (is_valid_position pos) eqn:Hv.
  - rewrite is_occupied_valid by done. split.
    + destruct (grid_get (grid d) pos) as [[e |] |]; simpl; try done. eauto.
    + intros [_ [e ->]]. done.
  - rewrite is_occupied_invalid by done. split; [done | by intros [? _]].
Qed.

Lemma is_traversable_false_gate (d : EntityData) (map : TileMap) (pos : Position) :
  is_valid_position pos = false ∨ is_occupied d pos = Some true →
  is_traversable d map pos = Some false.
Proof.
  unfold EntitySystem.is_traversable. intros [Hv | Ho].
  - by rewrite Hv.
  - destruct (is_valid_position pos); [| done]. by rewrite Ho.
Qed.

Lemma is_traversable_free (d : EntityData) (map : TileMap) (pos : Position) :
  is_valid_position pos = true → is_occupied d pos = Some false →
  is_traversable d map pos = traversable <$> grid_get map pos.
Proof.
  intros Hv Ho. unfold EntitySystem.is_traversable. rewrite Hv, Ho. simpl.
  by destruct (grid_get map pos).
Qed.

Lemma is_traversable_true (d : EntityData) (map : TileMap) (pos : Position) :
  is_traversable d map pos = Some true ↔
  is_valid_position pos = true ∧ is_occupied d pos = Some false ∧
  ∃ tile, grid_get map pos = Some tile ∧ traversable tile = true.
Proof.
  split.
  - intros Ht. destruct (is_valid_position pos) eqn:Hv.
    + destruct (is_occupied d pos) as [[|] |] eqn:Ho.
      * rewrite is_traversable_false_gate in Ht by auto. done.
      * rewrite is_traversable_free in Ht by done.
        destruct (grid_get map pos) as [tile |]; [| done].
        simpl in Ht. injection Ht as Ht. eauto.
      * unfold EntitySystem.is_traversable in Ht. rewrite Hv, Ho in Ht. done.
    + rewrite is_traversable_false_gate in Ht by auto. done.
  - intros (Hv & Ho & tile & Hm & Ht).
    rewrite is_traversable_free by done. rewrite Hm. simpl. by rewrite Ht.
Qed.

(** C9: on a pool of the declared shape, [is_occupied] is defined at every
    position, also outside the grid, and is true exactly at the valid
    positions whose cell holds an id; invalid positions are unoccupied.
    [is_traversable] is true exactly when the position is valid, unoccupied
    and its tile is traversable. When the position is invalid or occupied the
    answer is [false] whatever the tile map is (the map is not read); when it
    is valid and unoccupied the answer is the flag of the tile read from the
    map. *)
Theorem occupancy_and_traversability (d : EntityData) (map : TileMap)
    (pos : Position) :
  shape d →
  (∃ b, is_occupied d pos = Some b ∧
        (b = true ↔ is_valid_position pos = true ∧
                    ∃ e, grid_get (grid d) pos = Some (Some e))) ∧
  (is_valid_position pos = false → is_occupied d pos = Some false) ∧
  (is_traversable d map pos = Some true ↔
     is_valid_position pos = true ∧ is_occupied d pos = Some false ∧
     ∃ tile, grid_get map pos = Some tile ∧ traversable tile = true) ∧
  (is_valid_position pos = false ∨ is_occupied d pos = Some true →
     ∀ map', is_traversable d map' pos = Some false) ∧
  (is_valid_position pos = true → is_occupied d pos = Some false →
     is_traversable d map pos = traversable <$> grid_get map pos).
Proof.
  intros Hs. split; [| split; [| split; [| split]]].
  - destruct (is_valid_position pos) eqn:Hv.
    + destruct (shape_grid_get d pos Hs Hv) as [cell Hcell].
      exists (has_value cell). split.
      * rewrite is_occupied_valid by done. by rewrite Hcell.
      * rewrite Hcell. destruct cell as [e |]; simpl; split; try done; eauto.
        intros [_ [e [=]]].
    + exists false. split; [by apply is_occupied_invalid |].
      split; [done | by intros [? _]].
  - apply is_occupied_invalid.
  - apply is_traversable_true.
  - intros H map'. by apply is_traversable_false_gate.
  - apply is_traversable_free.
Qed.

(** *** [initialize] *)

Lemma init_loop_spec (n : nat) :
  ∀ (pre suf : list Z) (ppre psuf : list Position) al ac dc g,
    length suf = n → length psuf = n → length ppre = length pre →
    init_loop (seqZ (Z.of_nat (length pre)) (Z.of_nat n))
              (mkEntityData (ppre ++ psuf) al (pre ++ suf) ac dc g)
    = Some (mkEntityData (ppre ++ replicate n (mkPosition 0 0)) al
                         (pre ++ seqZ (Z.of_nat (length pre)) (Z.of_nat n))
                         ac dc g).
Proof.
  induction n as [| n IH]; intros pre suf ppre psuf al ac dc g Hs Hp Hl.
  - destruct suf, psuf; try done.
  - destruct suf as [| s suf], psuf as [| p psuf]; try done.
    rewrite seqZ_cons by lia. simpl.
    rewrite (arr_set_in (pre ++ s :: suf)), (arr_set_in (ppre ++ p :: psuf));
      [| rewrite length_app; simpl; lia ..].
    simpl. rewrite Nat2Z.id.
    rewrite !insert_app_r_alt by lia.
    replace (length pre - length ppre)%nat with 0%nat by lia.
    rewrite Nat.sub_diag. simpl.
    unfold set_positions, set_dead_indices. simpl.
    rewrite (cons_middle _ pre suf), (cons_middle _ ppre psuf), !app_assoc.
    replace (Z.succ (Z.of_nat (length pre)))
      with (Z.of_nat (length (pre ++ [Z.of_nat (length pre)])))
      by (rewrite length_app; simpl; lia).
    replace (Z.pred (Z.of_nat (S n))) with (Z.of_nat n) by lia.
    rewrite IH; [| simpl in *; lia .. | rewrite !length_app; simpl; lia].
    rewrite <- !app_assoc. simpl. done.
Qed.

Lemma clear_grid_replicate (h : nat) (g : list (list (option Z))) :
  Forall (λ column, length column = h) g →
  clear_grid g = replicate (length g) (replicate h None).
Proof.
  induction 1 as [| column g Hc _ IH]; [done |].
  unfold clear_grid in *. rewrite fmap_cons, IH. simpl. f_equal.
  subst h. clear. induction column as [| c column IH]; [done |].
  rewrite fmap_cons, IH. done.
Qed.

Lemma grid_get_replicate {A : Type} (w h : nat) (v : A) (pos : Position) :
  0 <= pos_x pos < Z.of_nat w → 0 <= pos_y pos < Z.of_nat h →
  grid_get (replicate w (replicate h v)) pos = Some v.
Proof.
  intros Hx Hy. apply grid_get_Some. exists (replicate h v).
  split; apply arr_get_Some; (split; [lia |]);
    apply lookup_replicate_2; lia.
Qed.

(** What [initialize] writes and what it leaves. *)
Lemma initialize_result (d : EntityData) :
  shape d →
  ∃ d', initialize d = Some d' ∧
        dead_indices d' = seqZ 0 MAX_ENTITIES ∧
        positions d' = replicate (Z.to_nat MAX_ENTITIES) (mkPosition 0 0) ∧
        grid d' = replicate (Z.to_nat GRID_WIDTH)
                            (replicate (Z.to_nat GRID_HEIGHT) None) ∧
        (∀ pos, is_valid_position pos = true →
                grid_get (grid d') pos = Some None) ∧
        alive_count d' = alive_count d ∧
        dead_count d' = dead_count d ∧
        alive_indices d' = alive_indices d.
Proof.
  intros (Hp & Ha & Hd & Hw & Hh). destruct d as [ps al de ac dc g].
  simpl in *. unfold EntitySystem.initialize.
  assert (seqZ 0 MAX_ENTITIES = seqZ 0 (Z.of_nat (Z.to_nat MAX_ENTITIES))) as ->.
  { unfold seqZ. by rewrite Nat2Z.id. }
  pose proof (init_loop_spec (Z.to_nat MAX_ENTITIES) [] de [] ps al ac dc g
                Hd Hp eq_refl) as Hloop.
  cbn [length app] in Hloop. change (Z.of_nat 0) with 0 in Hloop.
  rewrite Hloop. simpl. eexists. split; [done |]. simpl.
  rewrite (clear_grid_replicate (Z.to_nat GRID_HEIGHT)) by done. rewrite Hw.
  repeat split; try done.
  intros pos Hv. apply is_valid_position_true in Hv.
  apply grid_get_replicate; lia.
Qed.

(** C1, as the source has it: [initialize] is defined on every pool of the
    declared shape. Afterwards [dead_indices] holds 0, 1, ...,
    MAX_ENTITIES-1 in ascending order ([dead_indices[i] = i]), every entry
    of [positions] is (0,0) and every grid cell is empty, while
    [alive_count], [dead_count] and [alive_indices] are what they were
    before the call. *)
Theorem initialize_spec (d : EntityData) :
  shape d →
  ∃ d', initialize d = Some d' ∧
        dead_indices d' = seqZ 0 MAX_ENTITIES ∧
        (∀ i, 0 <= i < MAX_ENTITIES → arr_get (dead_indices d') i = Some i) ∧
        (∀ i, 0 <= i < MAX_ENTITIES →
              arr_get (positions d') i = Some (mkPosition 0 0)) ∧
        Forall (λ p, p = mkPosition 0 0) (positions d') ∧
        (∀ pos, is_valid_position pos = true →
                grid_get (grid d') pos = Some None) ∧
        alive_count d' = alive_count d ∧
        dead_count d' = dead_count d ∧
        alive_indices d' = alive_indices d.
Proof.
  intros Hs.
  destruct (initialize_result d Hs)
    as (d' & Hinit & Hde & Hps & _ & Hcells & Hac & Hdc & Hal).
  exists d'. split; [done |]. split; [done |]. split; [| split; [| split]].
  - intros i Hi. apply arr_get_Some. split; [lia |]. rewrite Hde.
    rewrite lookup_seqZ_lt by lia. f_equal. lia.
  - intros i Hi. apply arr_get_Some. split; [lia |]. rewrite Hps.
    apply lookup_replicate_2. lia.
  - rewrite Hps. by apply Forall_replicate.
  - done.
Qed.

(** *** [kill_entity] *)

Lemma alive_list_elem (d : EntityData) (id : Z) :
  id ∈ alive_list d ↔
  ∃ j, 0 <= j < alive_count d ∧ arr_get (alive_indices d) j = Some id.
Proof.
  unfold alive_list. rewrite elem_of_take. split.
  - intros (i & Hi & Hlt). exists (Z.of_nat i). split; [lia |].
    apply arr_get_Some. rewrite Nat2Z.id. split; [lia | done].
  - intros (j & Hj & Hg). apply arr_get_Some in Hg as [_ Hg].
    exists (Z.to_nat j). split; [done | lia].
Qed.

Lemma kill_at_Some (d : EntityData) (i id : Z) (d' : EntityData) :
  kill_at d i id = Some d' ↔
  ∃ pos g last,
    arr_get (positions d) id = Some pos ∧
    grid_set (grid d) pos None = Some g ∧
    arr_get (alive_indices d) (alive_count d - 1) = Some last ∧
    0 <= i < Z.of_nat (length (alive_indices d)) ∧
    0 <= dead_count d < Z.of_nat (length (dead_indices d)) ∧
    d' = mkEntityData (positions d)
           (<[Z.to_nat i := last]> (alive_indices d))
           (<[Z.to_nat (dead_count d) := id]> (dead_indices d))
           (alive_count d - 1) (dead_count d + 1) g.
Proof.
  unfold kill_at. split.
  - intros H.
    apply bind_Some in H as (pos & Hpos & H).
    apply bind_Some in H as (g & Hg & H).
    apply bind_Some in H as (last & Hlast & H).
    apply bind_Some in H as (alive & Halive & H).
    apply bind_Some in H as (dead & Hdead & H).
    apply arr_set_Some in Halive as [? ->].
    apply arr_set_Some in Hdead as [? ->].
    injection H as <-. exists pos, g, last. done.
  - intros (pos & g & last & Hpos & Hg & Hlast & Hi & Hdc & ->).
    rewrite Hpos. simpl. rewrite Hg. simpl. rewrite Hlast. simpl.
    rewrite (arr_set_in _ _ _ Hi). simpl. rewrite (arr_set_in _ _ _ Hdc).
    done.
Qed.

(** From index [i] on, a loop that meets no entry equal to [id] changes
    nothing. *)
Lemma kill_loop_absent (n : nat) (id : Z) (d : EntityData) :
  ∀ i, 0 <= i →
       alive_count d <= Z.of_nat (length (alive_indices d)) →
       alive_count d - i <= Z.of_nat n →
       (∀ j, i <= j < alive_count d → arr_get (alive_indices d) j ≠ Some id) →
       kill_loop n i id d = Some d.
Proof.
  induction n as [| n IH]; intros i Hi Hlen Hn Habs; simpl;
    destruct (Z.ltb_spec i (alive_count d)) as [Hlt | Hge]; try done; [lia |].
  destruct (arr_get_is_Some (alive_indices d) i) as [a Ha]; [lia |].
  rewrite Ha. simpl. destruct (Z.eqb_spec a id) as [-> | Hne].
  - destruct (Habs i); [lia | done].
  - apply IH; try lia. intros j Hj. apply Habs. lia.
Qed.

(** The loop skips the entries before the first one equal to [id], runs the
    body there and goes on behind it. *)
Lemma kill_loop_first (n : nat) (id k : Z) (d : EntityData) :
  ∀ i, 0 <= i <= k → k < alive_count d →
       alive_count d <= Z.of_nat (length (alive_indices d)) →
       alive_count d - i <= Z.of_nat n →
       arr_get (alive_indices d) k = Some id →
       (∀ j, i <= j < k → arr_get (alive_indices d) j ≠ Some id) →
       kill_loop n i id d =
       d' ← kill_at d k id;
       kill_loop (n - Z.to_nat (k - i) - 1) (k + 1) id d'.
Proof.
  induction n as [| n IH]; intros i Hi Hk Hlen Hn Hid Hbefore; simpl;
    destruct (Z.ltb_spec i (alive_count d)) as [Hlt | Hge]; try lia.
  destruct (decide (i = k)) as [-> | Hne].
  - rewrite Hid. simpl. rewrite Z.eqb_refl.
    replace (S n - Z.to_nat (k - k) - 1)%nat with n by lia. done.
  - destruct (arr_get_is_Some (alive_indices d) i) as [a Ha]; [lia |].
    rewrite Ha. simpl. destruct (Z.eqb_spec a id) as [-> | Hne'].
    + destruct (Hbefore i); [lia | done].
    + rewrite IH; try lia; try done.
      * replace (n - Z.to_nat (k - (i + 1)) - 1)%nat
          with (S n - Z.to_nat (k - i) - 1)%nat by lia.
        done.
      * intros j Hj. apply Hbefore. lia.
Qed.

(** The number of steps does not matter once it covers [alive_count - i]:
    the loop has then left through its test. *)
Lemma kill_loop_steps (n : nat) (id : Z) :
  ∀ (m : nat) (i : Z) (d : EntityData),
    alive_count d - i <= Z.of_nat n → alive_count d - i <= Z.of_nat m →
    kill_loop n i id d = kill_loop m i id d.
Proof.
  induction n as [| n IH]; intros m i d Hn Hm; destruct m as [| m]; simpl;
    destruct (Z.ltb_spec i (alive_count d)) as [Hlt | Hge]; try done;
    try lia.
  destruct (arr_get (alive_indices d) i) as [a |]; [| done]. simpl.
  destruct (a =? id).
  - destruct (kill_at d i id) as [d' |] eqn:Hk; [| done]. simpl.
    apply kill_at_Some in Hk as (pos & g & last & _ & _ & _ & _ & _ & ->).
    apply IH; simpl; lia.
  - apply IH; lia.
Qed.

Lemma alive_index_unique (d : EntityData) (i j id : Z) :
  NoDup (alive_list d) →
  0 <= i < alive_count d → 0 <= j < alive_count d →
  arr_get (alive_indices d) i = Some id →
  arr_get (alive_indices d) j = Some id →
  i = j.
Proof.
  intros Hnd Hi Hj Hgi Hgj.
  apply arr_get_Some in Hgi as [_ Hgi]. apply arr_get_Some in Hgj as [_ Hgj].
  assert (Z.to_nat i = Z.to_nat j); [| lia].
  apply (NoDup_lookup (alive_list d) _ _ id Hnd); unfold alive_list;
    rewrite lookup_take_lt by lia; done.
Qed.

Lemma kill_entity_absent (d : EntityData) (id : Z) :
  alive_count d <= Z.of_nat (length (alive_indices d)) →
  id ∉ alive_list d →
  kill_entity d id = Some d.
Proof.
  intros Hlen Habs. unfold kill_entity. apply kill_loop_absent; try lia.
  intros j Hj Hg. apply Habs, alive_list_elem. eauto.
Qed.

(** With distinct alive ids the whole loop is one run of its body, at the
    index of the id. *)
Lemma kill_entity_found (d : EntityData) (id k : Z) :
  0 <= k < alive_count d →
  alive_count d <= Z.of_nat (length (alive_indices d)) →
  NoDup (alive_list d) →
  arr_get (alive_indices d) k = Some id →
  kill_entity d id = kill_at d k id.
Proof.
  intros Hk Hlen Hnd Hid. unfold kill_entity.
  rewrite (kill_loop_first _ id k); try lia; try done.
  - destruct (kill_at d k id) as [d' |] eqn:Hkill; [| done]. simpl.
    apply kill_at_Some in Hkill
      as (pos & g & last & _ & _ & _ & Hki & _ & ->).
    apply kill_loop_absent; simpl; try lia.
    + rewrite length_insert. lia.
    + intros j Hj Hg.
      rewrite (arr_get_set_ne (alive_indices d) _ k j last) in Hg;
        [| by apply arr_set_in | lia].
      assert (k = j); [| lia].
      apply (alive_index_unique d k j id); try done; lia.
  - intros j Hj Hg.
    assert (j = k); [| lia].
    apply (alive_index_unique d j k id); try done; lia.
Qed.

(** C7: on a pool of the declared shape whose [alive_count] is within the
    capacity, [kill_entity] with an id that does not occur in
    [alive_indices[0..alive_count)] is defined and returns the pool it was
    given, equal in every member. *)
Theorem kill_entity_not_alive (d : EntityData) (id : Z) :
  shape d → alive_count d <= MAX_ENTITIES → id ∉ alive_list d →
  kill_entity d id = Some d.
Proof.
  intros (_ & Ha & _) Hc Habs. apply kill_entity_absent; [lia | done].
Qed.

(** *** [move_entity] that does not move *)

Lemma shape_grid_get_valid (d : EntityData) (pos : Position)
    (cell : option Z) :
  shape d → grid_get (grid d) pos = Some cell → is_valid_position pos = true.
Proof. intros (_ & _ & _ & Hg). by apply grid_shape_get_valid. Qed.

Lemma move_entity_not_traversable (d : EntityData) (map : TileMap) (id : Z)
    (dir : Direction) (current new_pos : Position) :
  arr_get (positions d) id = Some current →
  get_new_position current dir = Some new_pos →
  is_traversable d map new_pos = Some false →
  move_entity d map id dir = Some (d, false).
Proof.
  intros Hcur Hnew Ht. unfold EntitySystem.move_entity.
  rewrite Hcur. simpl. rewrite Hnew. simpl. by rewrite Ht.
Qed.

(** C5: let [current] be the position stored for [id] (every alive id of a
    pool that satisfies the partition invariant has one) and [new_pos] the
    destination computed from it. If [new_pos] is not traversable,
    [move_entity] returns false and the pool it leaves is the pool it was
    given: [positions[id]], the grid cell at [current], [alive_count] and
    [dead_count] are unchanged. *)
Theorem move_entity_blocked (d : EntityData) (map : TileMap) (id : Z)
    (dir : Direction) (current new_pos : Position) :
  arr_get (positions d) id = Some current →
  get_new_position current dir = Some new_pos →
  is_traversable d map new_pos = Some false →
  ∃ d', move_entity d map id dir = Some (d', false) ∧
        d' = d ∧
        arr_get (positions d') id = Some current ∧
        grid_get (grid d') current = grid_get (grid d) current ∧
        alive_count d' = alive_count d ∧
        dead_count d' = dead_count d.
Proof.
  intros Hcur Hnew Ht. exists d.
  rewrite (move_entity_not_traversable d map id dir current new_pos) by done.
  done.
Qed.

(** C10: on a pool of the declared shape, let [current] be the position
    stored for [id] and let the grid cell at [current] hold [id] (so it is
    for every alive id of a pool with grid/position consistency). Whenever
    [get_new_position] maps [current] to itself, and so for every direction
    value that is none of the four enumerators, [move_entity] returns false
    and leaves the pool as it was: the entity's own cell counts as
    occupied. *)
Theorem move_entity_onto_own_cell (d : EntityData) (map : TileMap) (id : Z)
    (current : Position) :
  shape d →
  arr_get (positions d) id = Some current →
  grid_get (grid d) current = Some (Some id) →
  (∀ dir, get_new_position current dir = Some current →
          move_entity d map id dir = Some (d, false)) ∧
  (∀ v, move_entity d map id (OTHER v) = Some (d, false)).
Proof.
  intros Hs Hcur Hcell.
  assert (is_traversable d map current = Some false) as Ht.
  { apply is_traversable_false_gate. right. apply is_occupied_true.
    split; [by eapply shape_grid_get_valid | eauto]. }
  split.
  - intros dir Hsame.
    by apply (move_entity_not_traversable d map id dir current current).
  - intros v.
    by apply (move_entity_not_traversable d map id (OTHER v) current current).
Qed.

(** *** The partition invariant *)

Lemma partition_bounds (d : EntityData) :
  partition_inv d →
  0 <= alive_count d <= MAX_ENTITIES ∧ 0 <= dead_count d <= MAX_ENTITIES.
Proof. intros (? & ? & ? & _). lia. Qed.

Lemma partition_NoDup (d : EntityData) :
  partition_inv d → NoDup (alive_list d ++ dead_list d).
Proof. intros (_ & _ & _ & Hperm). rewrite Hperm. apply NoDup_seqZ. Qed.

Lemma partition_NoDup_alive (d : EntityData) :
  partition_inv d → NoDup (alive_list d).
Proof. intros H. by apply partition_NoDup, NoDup_app in H as (? & _ & _). Qed.

Lemma partition_range (d : EntityData) (id : Z) :
  partition_inv d → id ∈ alive_list d ++ dead_list d →
  0 <= id < MAX_ENTITIES.
Proof.
  intros (_ & _ & _ & Hperm) Hin. rewrite Hperm in Hin.
  apply elem_of_seqZ in Hin. lia.
Qed.

Lemma alive_in_range (d : EntityData) (id : Z) :
  partition_inv d → id ∈ alive_list d → 0 <= id < MAX_ENTITIES.
Proof.
  intros Hp Hin. apply (partition_range d id Hp), elem_of_app. by left.
Qed.

Lemma alive_has_position (d : EntityData) (id : Z) :
  shape d → partition_inv d → id ∈ alive_list d →
  is_Some (arr_get (positions d) id).
Proof.
  intros (Hps & _) Hp Hin. apply arr_get_is_Some.
  pose proof (alive_in_range d id Hp Hin). lia.
Qed.

(** The top of the free list: the entry [create_entity] pops. *)
Lemma dead_top (d : EntityData) :
  shape d → partition_inv d → dead_count d ≠ 0 →
  ∃ id, arr_get (dead_indices d) (dead_count d - 1) = Some id ∧
        dead_list d = take (Z.to_nat (dead_count d - 1)) (dead_indices d)
                      ++ [id] ∧
        (id ∉ alive_list d) ∧ 0 <= id < MAX_ENTITIES.
Proof.
  intros (_ & _ & Hde & _) Hp Hne.
  pose proof (partition_bounds d Hp) as [Ha Hd].
  destruct (arr_get_is_Some (dead_indices d) (dead_count d - 1)) as [id Hid];
    [lia |].
  exists id. split; [done |].
  assert (dead_list d
          = take (Z.to_nat (dead_count d - 1)) (dead_indices d) ++ [id]) as Hl.
  { unfold dead_list. apply arr_get_Some in Hid as [_ Hid].
    rewrite <- (take_pop _ _ _ Hid). f_equal. lia. }
  split; [done |]. split.
  - pose proof (partition_NoDup d Hp) as Hnd.
    apply NoDup_app in Hnd as (_ & Hdisj & _). intros Hin.
    apply (Hdisj id Hin). rewrite Hl. apply elem_of_app. right.
    by apply list_elem_of_singleton.
  - apply (partition_range d id Hp). rewrite Hl, !elem_of_app.
    right. right. by apply list_elem_of_singleton.
Qed.

(** Popping the free list and appending to the alive array keeps the
    partition. *)
Lemma create_partition (d : EntityData) (id : Z) ps g :
  shape d → partition_inv d → dead_count d ≠ 0 →
  arr_get (dead_indices d) (dead_count d - 1) = Some id →
  partition_inv
    (mkEntityData ps (<[Z.to_nat (alive_count d) := id]> (alive_indices d))
                  (dead_indices d) (alive_count d + 1) (dead_count d - 1) g).
Proof.
  intros Hs Hp Hne Hid. pose proof (partition_bounds d Hp) as [Ha Hd].
  destruct (dead_top d Hs Hp Hne) as (id' & Hid' & Hl & _ & _).
  assert (id' = id) as -> by congruence.
  destruct Hs as (_ & Hal & _). destruct Hp as (_ & _ & Hsum & Hperm).
  unfold EntitySystem.partition_inv. simpl.
  split; [lia |]. split; [lia |]. split; [lia |].
  rewrite <- Hperm, Hl. unfold alive_list, dead_list. simpl.
  replace (Z.to_nat (alive_count d + 1)) with (S (Z.to_nat (alive_count d)))
    by lia.
  rewrite take_push by lia.
  rewrite <- !app_assoc. f_equiv. apply Permutation_app_comm.
Qed.

(** The body of the kill loop keeps the partition. *)
Lemma kill_at_partition (d : EntityData) (k id : Z) (d' : EntityData) :
  shape d → partition_inv d → 0 <= k < alive_count d →
  arr_get (alive_indices d) k = Some id →
  kill_at d k id = Some d' →
  partition_inv d' ∧
  alive_list d ≡ₚ id :: alive_list d' ∧
  dead_list d' = dead_list d ++ [id].
Proof.
  intros (_ & Hal & Hde & _) Hp Hk Hid Hkill.
  pose proof (partition_bounds d Hp) as [Ha Hd].
  destruct Hp as (_ & _ & Hsum & Hperm).
  apply kill_at_Some in Hkill
    as (pos & g & last & _ & _ & Hlast & _ & Hdc & ->).
  assert (alive_list d
          ≡ₚ id :: take (Z.to_nat (alive_count d - 1))
                        (<[Z.to_nat k := last]> (alive_indices d))) as Hal'.
  { assert (length (alive_list d) = Z.to_nat (alive_count d)) as Hlen
      by (unfold alive_list; rewrite length_take; lia).
    apply arr_get_Some in Hid as [_ Hid].
    apply arr_get_Some in Hlast as [_ Hlast].
    rewrite (swap_remove_perm (alive_list d) (Z.to_nat k) id last).
    - f_equiv. rewrite Hlen. unfold alive_list.
      rewrite <- take_insert_lt by lia. rewrite take_take.
      replace (Z.to_nat (alive_count d) - 1)%nat
        with (Z.to_nat (alive_count d - 1)) by lia.
      by rewrite Nat.min_l by lia.
    - unfold alive_list. rewrite lookup_take_lt by lia. done.
    - rewrite Hlen. unfold alive_list. rewrite lookup_take_lt by lia.
      rewrite <- Hlast. f_equal. lia. }
  assert (take (Z.to_nat (dead_count d + 1))
               (<[Z.to_nat (dead_count d) := id]> (dead_indices d))
          = dead_list d ++ [id]) as Hde'.
  { replace (Z.to_nat (dead_count d + 1)) with (S (Z.to_nat (dead_count d)))
      by lia.
    rewrite take_push by lia. done. }
  match goal with |- context [partition_inv ?x] => set (d' := x) end.
  assert (dead_list d' = dead_list d ++ [id]) as Hdl by exact Hde'.
  assert (alive_list d ≡ₚ id :: alive_list d') as Hall by exact Hal'.
  split; [| done].
  split; [simpl; lia |]. split; [simpl; lia |]. split; [simpl; lia |].
  rewrite <- Hperm, Hall, Hdl. rewrite app_assoc.
  by rewrite <- Permutation_cons_append.
Qed.

(** *** [create_entity] *)

Lemma is_traversable_defined (d : EntityData) (map : TileMap) (pos : Position) :
  shape d →
  (is_valid_position pos = true → is_Some (grid_get map pos)) →
  is_Some (is_traversable d map pos).
Proof.
  intros Hs Hm. destruct (is_valid_position pos) eqn:Hv.
  - destruct (shape_grid_get d pos Hs Hv) as [cell Hcell].
    destruct cell as [e |].
    + exists false. apply is_traversable_false_gate. right.
      apply is_occupied_true. eauto.
    + rewrite is_traversable_free; [| done |].
      * destruct (Hm eq_refl) as [tile ->]. by eexists.
      * rewrite is_occupied_valid by done. by rewrite Hcell.
  - exists false. apply is_traversable_false_gate. by left.
Qed.

Lemma is_traversable_false (d : EntityData) (map : TileMap) (pos : Position) :
  shape d →
  (is_traversable d map pos = Some false ↔
   is_valid_position pos = false ∨ is_occupied d pos = Some true ∨
   (is_valid_position pos = true ∧ is_occupied d pos = Some false ∧
    ∃ tile, grid_get map pos = Some tile ∧ traversable tile = false)).
Proof.
  intros Hs. split.
  - intros Ht. destruct (is_valid_position pos) eqn:Hv; [| by left].
    right. destruct (shape_grid_get d pos Hs Hv) as [cell Hcell].
    assert (is_occupied d pos = Some (has_value cell)) as Ho
      by (rewrite is_occupied_valid by done; by rewrite Hcell).
    destruct cell as [e |]; [by left |]. right.
    rewrite is_traversable_free in Ht by done.
    destruct (grid_get map pos) as [tile |]; [| done].
    injection Ht as Ht. eauto.
  - intros [Hv | [Ho | (Hv & Ho & tile & Hm & Ht)]].
    + apply is_traversable_false_gate. by left.
    + apply is_traversable_false_gate. by right.
    + rewrite is_traversable_free by done. rewrite Hm. simpl. by rewrite Ht.
Qed.

Lemma create_entity_full (d : EntityData) (map : TileMap) (pos : Position) :
  dead_count d = 0 → create_entity d map pos = Some (d, None).
Proof. intros H. unfold EntitySystem.create_entity. by rewrite H. Qed.

Lemma create_entity_refused (d : EntityData) (map : TileMap) (pos : Position) :
  dead_count d ≠ 0 → is_traversable d map pos = Some false →
  create_entity d map pos = Some (d, None).
Proof.
  intros Hne Ht. unfold EntitySystem.create_entity.
  destruct (Z.eqb_spec (dead_count d) 0); [done |]. by rewrite Ht.
Qed.

(** A successful [create_entity], member by member. *)
Lemma create_entity_success (d : EntityData) (map : TileMap) (pos : Position) :
  shape d → partition_inv d →
  dead_count d ≠ 0 → is_traversable d map pos = Some true →
  ∃ id alive ps g,
    arr_get (dead_indices d) (dead_count d - 1) = Some id ∧
    arr_set (alive_indices d) (alive_count d) id = Some alive ∧
    arr_set (positions d) id pos = Some ps ∧
    grid_set (grid d) pos (Some id) = Some g ∧
    create_entity d map pos
    = Some (mkEntityData ps alive (dead_indices d)
                         (alive_count d + 1) (dead_count d - 1) g,
            Some id).
Proof.
  intros Hs Hp Hne Ht. pose proof (partition_bounds d Hp) as [Ha Hd].
  destruct (dead_top d Hs Hp Hne) as (id & Hid & _ & _ & Hrange).
  pose proof Hs as (Hps & Hal & Hde & Hg).
  pose proof Hp as (_ & _ & Hsum & _).
  apply is_traversable_true in Ht as Ht'. destruct Ht' as (Hv & _ & _).
  destruct (grid_shape_set (grid d) pos (Some id) Hg Hv) as [g Hset].
  exists id, (<[Z.to_nat (alive_count d) := id]> (alive_indices d)),
         (<[Z.to_nat id := pos]> (positions d)), g.
  assert (arr_set (alive_indices d) (alive_count d) id
          = Some (<[Z.to_nat (alive_count d) := id]> (alive_indices d)))
    as Halive by (apply arr_set_in; lia).
  assert (arr_set (positions d) id pos
          = Some (<[Z.to_nat id := pos]> (positions d)))
    as Hpos by (apply arr_set_in; lia).
  repeat split; try done.
  unfold EntitySystem.create_entity.
  destruct (Z.eqb_spec (dead_count d) 0); [done |].
  rewrite Ht. simpl. rewrite Hid. simpl. rewrite Halive. simpl.
  rewrite Hpos. simpl. rewrite Hset. done.
Qed.

(** C4: on a pool of the declared shape that satisfies the partition
    invariant, with a tile map that has a tile at [pos] when [pos] is in the
    grid, [create_entity] is defined. It returns empty exactly when
    [dead_count] is 0 or [pos] is not traversable, that is out of bounds,
    occupied, or on a tile that is not traversable. When it returns empty the
    pool is the one it was given. When it returns an id, that id is the top
    entry of the free list and all four updates are made: [dead_count] is
    one less, the id is stored at [alive_indices[alive_count]] and
    [alive_count] is one more, [positions[id]] is [pos], and the grid cell
    at [pos] holds the id. Read back from the pool after the call:
    [alive_indices[alive_count d]] is the id, [positions[id]] is [pos], the
    cell at [pos] holds the id, the free list has lost its last entry, the
    alive ids have gained the id at their end, and every other alive slot,
    position and grid cell is as before. *)
Theorem create_entity_spec (d : EntityData) (map : TileMap) (pos : Position) :
  shape d → partition_inv d →
  (is_valid_position pos = true → is_Some (grid_get map pos)) →
  ∃ d' r,
    create_entity d map pos = Some (d', r) ∧
    (r = None ↔ dead_count d = 0 ∨ is_traversable d map pos = Some false) ∧
    (is_traversable d map pos = Some false ↔
     is_valid_position pos = false ∨ is_occupied d pos = Some true ∨
     (is_valid_position pos = true ∧ is_occupied d pos = Some false ∧
      ∃ tile, grid_get map pos = Some tile ∧ traversable tile = false)) ∧
    (r = None → d' = d) ∧
    (∀ id, r = Some id →
           arr_get (dead_indices d) (dead_count d - 1) = Some id ∧
           dead_indices d' = dead_indices d ∧
           dead_count d' = dead_count d - 1 ∧
           arr_set (alive_indices d) (alive_count d) id
           = Some (alive_indices d') ∧
           alive_count d' = alive_count d + 1 ∧
           arr_set (positions d) id pos = Some (positions d') ∧
           grid_set (grid d) pos (Some id) = Some (grid d') ∧
           arr_get (alive_indices d') (alive_count d) = Some id ∧
           arr_get (positions d') id = Some pos ∧
           grid_get (grid d') pos = Some (Some id) ∧
           dead_list d = dead_list d' ++ [id] ∧
           alive_list d' = alive_list d ++ [id] ∧
           (∀ i, i ≠ alive_count d →
                 arr_get (alive_indices d') i = arr_get (alive_indices d) i) ∧
           (∀ e, e ≠ id →
                 arr_get (positions d') e = arr_get (positions d) e) ∧
           (∀ p, p ≠ pos → grid_get (grid d') p = grid_get (grid d) p)).
Proof.
  intros Hs Hp Hm.
  pose proof (is_traversable_false d map pos Hs) as Hfalse.
  destruct (decide (dead_count d = 0)) as [Hz | Hnz].
  - exists d, None. rewrite create_entity_full by done.
    repeat split; try done; try tauto; try apply Hfalse.
  - destruct (is_traversable_defined d map pos Hs Hm) as [[|] Ht].
    + destruct (create_entity_success d map pos Hs Hp Hnz Ht)
        as (id & alive & ps & g & Hid & Halive & Hpos & Hg & ->).
      destruct (dead_top d Hs Hp Hnz) as (id' & Hid' & Hdl & _ & _).
      assert (id' = id) as -> by congruence.
      pose proof (proj1 (arr_set_Some _ _ _ _) Halive) as [Hac Halive'].
      eexists _, (Some id). split; [done |]. split; [| split; [done |]].
      * split; [done |]. intros [? | ?]; [done | congruence].
      * split; [done |]. intros id' [= <-]. simpl.
        split; [done |]. split; [done |]. split; [done |].
        split; [done |]. split; [done |]. split; [done |].
        split; [done |].
        split; [by eapply arr_get_set_eq |].
        split; [by eapply arr_get_set_eq |].
        split; [by eapply grid_get_set_eq |].
        split; [exact Hdl |].
        split.
        { unfold alive_list at 1. simpl. rewrite Halive'.
          replace (Z.to_nat (alive_count d + 1))
            with (S (Z.to_nat (alive_count d))) by lia.
          by rewrite take_push by lia. }
        split; [| split].
        -- intros i Hi.
           by apply (arr_get_set_ne _ _ (alive_count d) i _ Halive).
        -- intros e He. by apply (arr_get_set_ne _ _ id e _ Hpos).
        -- intros p Hne. by apply (grid_get_set_ne _ _ pos p _ Hg).
    + exists d, None. rewrite create_entity_refused by done.
      repeat split; try done; try tauto; try apply Hfalse.
Qed.

(** *** Grid/position consistency *)

Lemma kill_entity_alive (d : EntityData) (id : Z) :
  shape d → partition_inv d → id ∈ alive_list d →
  ∃ k, 0 <= k < alive_count d ∧
       arr_get (alive_indices d) k = Some id ∧
       kill_entity d id = kill_at d k id.
Proof.
  intros (_ & Hal & _) Hp Hin. pose proof (partition_bounds d Hp) as [Ha _].
  apply alive_list_elem in Hin as (k & Hk & Hid). exists k.
  split; [done |]. split; [done |].
  apply kill_entity_found; try done; try lia.
  by apply partition_NoDup_alive.
Qed.

Lemma kill_at_defined (d : EntityData) (k id : Z) (pos : Position) :
  shape d → partition_inv d → 0 <= k < alive_count d →
  arr_get (positions d) id = Some pos → is_valid_position pos = true →
  is_Some (kill_at d k id).
Proof.
  intros (_ & Hal & Hde & Hg) Hp Hk Hpos Hv.
  pose proof (partition_bounds d Hp) as [Ha Hd].
  destruct Hp as (_ & _ & Hsum & _).
  destruct (grid_shape_set (grid d) pos None Hg Hv) as [g Hset].
  destruct (arr_get_is_Some (alive_indices d) (alive_count d - 1))
    as [last Hlast]; [lia |].
  eexists. apply kill_at_Some. exists pos, g, last.
  repeat split; try done; lia.
Qed.

Lemma kill_at_consistent (d : EntityData) (k id : Z) (d' : EntityData) :
  shape d → partition_inv d → grid_consistent d →
  0 <= k < alive_count d → arr_get (alive_indices d) k = Some id →
  kill_at d k id = Some d' →
  grid_consistent d'.
Proof.
  intros Hs Hp [Hfwd Hbwd] Hk Hid Hkill.
  destruct (kill_at_partition d k id d' Hs Hp Hk Hid Hkill)
    as (_ & Hperm & _).
  pose proof (partition_NoDup_alive d Hp) as Hnd. rewrite Hperm in Hnd.
  apply NoDup_cons in Hnd as [Hnotin _].
  assert (id ∈ alive_list d) as Hin by (apply alive_list_elem; eauto).
  destruct (Hfwd id Hin) as (pos & Hpos & Hcell).
  apply kill_at_Some in Hkill
    as (pos' & g & last & Hpos' & Hset & _ & _ & _ & Hd').
  assert (pos' = pos) as -> by congruence.
  assert (positions d' = positions d) as Hps by (by rewrite Hd').
  assert (grid d' = g) as Hgd by (by rewrite Hd').
  split.
  - intros e He.
    assert (e ∈ alive_list d) as He'
      by (rewrite Hperm; apply elem_of_cons; by right).
    destruct (Hfwd e He') as (p & Hp' & Hcell'). exists p.
    rewrite Hps, Hgd. split; [done |].
    rewrite (grid_get_set_ne _ _ pos p _ Hset); [done |].
    intros <-. congruence.
  - intros p e Hcell'. rewrite Hgd in Hcell'.
    destruct (decide (pos = p)) as [<- | Hne].
    + rewrite (grid_get_set_eq _ _ _ _ Hset) in Hcell'. done.
    + rewrite (grid_get_set_ne _ _ pos p _ Hset Hne) in Hcell'.
      destruct (Hbwd p e Hcell') as [He Hp']. rewrite Hps. split; [| done].
      rewrite Hperm in He. apply elem_of_cons in He as [-> | He]; [| done].
      congruence.
Qed.

Lemma create_alive_list (d : EntityData) (id : Z) :
  0 <= alive_count d < Z.of_nat (length (alive_indices d)) →
  take (Z.to_nat (alive_count d + 1))
       (<[Z.to_nat (alive_count d) := id]> (alive_indices d))
  = alive_list d ++ [id].
Proof.
  intros Ha.
  replace (Z.to_nat (alive_count d + 1)) with (S (Z.to_nat (alive_count d)))
    by lia.
  rewrite take_push by lia. done.
Qed.

Lemma create_consistent (d : EntityData) (pos : Position) (id : Z)
    alive ps g :
  shape d → partition_inv d → grid_consistent d → dead_count d ≠ 0 →
  is_occupied d pos = Some false → is_valid_position pos = true →
  arr_get (dead_indices d) (dead_count d - 1) = Some id →
  arr_set (alive_indices d) (alive_count d) id = Some alive →
  arr_set (positions d) id pos = Some ps →
  grid_set (grid d) pos (Some id) = Some g →
  grid_consistent
    (mkEntityData ps alive (dead_indices d)
                  (alive_count d + 1) (dead_count d - 1) g).
Proof.
  intros Hs Hp [Hfwd Hbwd] Hnz Hocc Hv Hid Halive Hpos Hset.
  destruct (dead_top d Hs Hp Hnz) as (id' & Hid' & _ & Hnotin & _).
  assert (id' = id) as -> by congruence.
  assert (grid_get (grid d) pos = Some None) as Hfree.
  { rewrite is_occupied_valid in Hocc by done.
    destruct (grid_get (grid d) pos) as [[e |] |]; done. }
  apply arr_set_Some in Halive as [Hac ->].
  match goal with |- grid_consistent ?x => set (d' := x) end.
  assert (alive_list d' = alive_list d ++ [id]) as Hal'
    by (by apply create_alive_list).
  split.
  - intros e He. rewrite Hal', elem_of_app, list_elem_of_singleton in He.
    simpl. destruct He as [He | ->].
    + destruct (Hfwd e He) as (p & Hp' & Hcell). exists p. split.
      * rewrite (arr_get_set_ne _ _ id e _ Hpos); [done |]. by intros ->.
      * rewrite (grid_get_set_ne _ _ pos p _ Hset); [done |].
        intros <-. congruence.
    + exists pos. split; [by eapply arr_get_set_eq |].
      by eapply grid_get_set_eq.
  - intros p e Hcell. simpl in Hcell. rewrite Hal', elem_of_app. simpl.
    destruct (decide (pos = p)) as [<- | Hne].
    + rewrite (grid_get_set_eq _ _ _ _ Hset) in Hcell.
      injection Hcell as <-. split.
      * right. by apply list_elem_of_singleton.
      * by eapply arr_get_set_eq.
    + rewrite (grid_get_set_ne _ _ pos p _ Hset Hne) in Hcell.
      destruct (Hbwd p e Hcell) as [He Hp']. split; [by left |].
      rewrite (arr_get_set_ne _ _ id e _ Hpos); [done |]. by intros ->.
Qed.

Lemma move_consistent (d : EntityData) (id : Z) (current new_pos : Position)
    g1 g2 ps :
  grid_consistent d → id ∈ alive_list d →
  arr_get (positions d) id = Some current →
  grid_get (grid d) new_pos = Some None →
  grid_set (grid d) current None = Some g1 →
  grid_set g1 new_pos (Some id) = Some g2 →
  arr_set (positions d) id new_pos = Some ps →
  grid_consistent (set_positions (set_grid d g2) ps).
Proof.
  intros [Hfwd Hbwd] Hin Hcur Hfree Hset1 Hset2 Hpos.
  destruct (Hfwd id Hin) as (p0 & Hp0 & Hown).
  assert (p0 = current) as -> by congruence.
  assert (current ≠ new_pos) as Hne by (intros <-; congruence).
  match goal with |- grid_consistent ?x => set (d' := x) end.
  assert (alive_list d' = alive_list d) as Hal by done.
  split.
  - intros e He. rewrite Hal in He. simpl.
    destruct (decide (e = id)) as [-> | Hneq].
    + exists new_pos. split; [by eapply arr_get_set_eq |].
      by eapply grid_get_set_eq.
    + destruct (Hfwd e He) as (p & Hp' & Hcell). exists p. split.
      * rewrite (arr_get_set_ne _ _ id e _ Hpos); [done |]. by intros ->.
      * rewrite (grid_get_set_ne _ _ new_pos p _ Hset2)
          by (intros <-; congruence).
        rewrite (grid_get_set_ne _ _ current p _ Hset1)
          by (intros <-; congruence).
        done.
  - intros p e Hcell. simpl in Hcell. rewrite Hal. simpl.
    destruct (decide (new_pos = p)) as [<- | Hnp].
    + rewrite (grid_get_set_eq _ _ _ _ Hset2) in Hcell.
      injection Hcell as <-. split; [done | by eapply arr_get_set_eq].
    + rewrite (grid_get_set_ne _ _ new_pos p _ Hset2 Hnp) in Hcell.
      destruct (decide (current = p)) as [<- | Hcp].
      * rewrite (grid_get_set_eq _ _ _ _ Hset1) in Hcell. done.
      * rewrite (grid_get_set_ne _ _ current p _ Hset1 Hcp) in Hcell.
        destruct (Hbwd p e Hcell) as [He Hp']. split; [done |].
        rewrite (arr_get_set_ne _ _ id e _ Hpos); [done |].
        intros ->. congruence.
Qed.

(** *** Inversion of the defined executions *)

Lemma create_entity_Some (d : EntityData) (map : TileMap) (pos : Position)
    (d' : EntityData) (r : option Z) :
  create_entity d map pos = Some (d', r) →
  (r = None ∧ d' = d ∧
   (dead_count d = 0 ∨ is_traversable d map pos = Some false)) ∨
  (∃ id alive ps g,
     r = Some id ∧ dead_count d ≠ 0 ∧
     is_traversable d map pos = Some true ∧
     arr_get (dead_indices d) (dead_count d - 1) = Some id ∧
     arr_set (alive_indices d) (alive_count d) id = Some alive ∧
     arr_set (positions d) id pos = Some ps ∧
     grid_set (grid d) pos (Some id) = Some g ∧
     d' = mkEntityData ps alive (dead_indices d)
                       (alive_count d + 1) (dead_count d - 1) g).
Proof.
  unfold EntitySystem.create_entity.
  destruct (Z.eqb_spec (dead_count d) 0) as [Hz | Hnz].
  - intros [= <- <-]. left. auto.
  - intros H. apply bind_Some in H as ([|] & Ht & H); simpl in H.
    + apply bind_Some in H as (id & Hid & H).
      apply bind_Some in H as (alive & Halive & H).
      apply bind_Some in H as (ps & Hps & H).
      apply bind_Some in H as (g & Hg & H).
      injection H as <- <-. right. exists id, alive, ps, g. done.
    + injection H as <- <-. left. auto.
Qed.

Lemma move_entity_Some (d : EntityData) (map : TileMap) (id : Z)
    (dir : Direction) (d' : EntityData) (moved : bool) :
  move_entity d map id dir = Some (d', moved) →
  ∃ current new_pos,
    arr_get (positions d) id = Some current ∧
    get_new_position current dir = Some new_pos ∧
    ((moved = false ∧ d' = d ∧ is_traversable d map new_pos = Some false) ∨
     (moved = true ∧ is_traversable d map new_pos = Some true ∧
      ∃ g1 g2 ps,
        grid_set (grid d) current None = Some g1 ∧
        grid_set g1 new_pos (Some id) = Some g2 ∧
        arr_set (positions d) id new_pos = Some ps ∧
        d' = set_positions (set_grid d g2) ps)).
Proof.
  unfold EntitySystem.move_entity. intros H.
  apply bind_Some in H as (current & Hcur & H).
  apply bind_Some in H as (new_pos & Hnew & H).
  apply bind_Some in H as ([|] & Ht & H); simpl in H;
    exists current, new_pos; (split; [done |]); (split; [done |]).
  - apply bind_Some in H as (g1 & Hg1 & H).
    apply bind_Some in H as (g2 & Hg2 & H).
    apply bind_Some in H as (ps & Hps & H).
    injection H as <- <-. right. split; [done |]. split; [done |].
    exists g1, g2, ps. done.
  - injection H as <- <-. left. done.
Qed.

Lemma kill_entity_Some (d : EntityData) (id : Z) (d' : EntityData) :
  shape d → partition_inv d → kill_entity d id = Some d' →
  ((id ∉ alive_list d) ∧ d' = d) ∨
  (∃ k, 0 <= k < alive_count d ∧
        arr_get (alive_indices d) k = Some id ∧
        kill_at d k id = Some d').
Proof.
  intros Hs Hp Hkill. destruct (decide (id ∈ alive_list d)) as [Hin | Hout].
  - right. destruct (kill_entity_alive d id Hs Hp Hin) as (k & Hk & Hid & Heq).
    exists k. rewrite <- Heq. done.
  - left. split; [done |]. pose proof Hs as (_ & Hal & _).
    pose proof (partition_bounds d Hp) as [Ha _].
    rewrite kill_entity_absent in Hkill by (done || lia). congruence.
Qed.

(** *** The shape is kept *)

Lemma create_entity_shape (d : EntityData) (map : TileMap) (pos : Position)
    (d' : EntityData) (r : option Z) :
  shape d → create_entity d map pos = Some (d', r) → shape d'.
Proof.
  intros Hs Hc.
  apply create_entity_Some in Hc
    as [(_ & -> & _) |
        (id & alive & ps & g & _ & _ & _ & _ & Hal & Hps & Hg & ->)];
    [done |].
  destruct Hs as (Hp & Ha & Hd & Hgs). unfold EntitySystem.shape. simpl.
  rewrite (arr_set_length _ _ _ _ Hal), (arr_set_length _ _ _ _ Hps).
  split; [done |]. split; [done |]. split; [done |].
  by eapply grid_set_shape.
Qed.

Lemma kill_at_shape (d : EntityData) (k id : Z) (d' : EntityData) :
  shape d → kill_at d k id = Some d' → shape d'.
Proof.
  intros (Hp & Ha & Hd & Hgs) Hk.
  apply kill_at_Some in Hk as (pos & g & last & _ & Hg & _ & _ & _ & ->).
  unfold EntitySystem.shape. simpl. rewrite !length_insert.
  split; [done |]. split; [done |]. split; [done |].
  by eapply grid_set_shape.
Qed.

Lemma move_entity_shape (d : EntityData) (map : TileMap) (id : Z)
    (dir : Direction) (d' : EntityData) (moved : bool) :
  shape d → move_entity d map id dir = Some (d', moved) → shape d'.
Proof.
  intros Hs Hm.
  apply move_entity_Some in Hm
    as (current & new_pos & _ & _ &
        [(_ & -> & _) | (_ & _ & g1 & g2 & ps & Hg1 & Hg2 & Hps & ->)]);
    [done |].
  destruct Hs as (Hp & Ha & Hd & Hgs). unfold EntitySystem.shape. simpl.
  rewrite (arr_set_length _ _ _ _ Hps).
  split; [done |]. split; [done |]. split; [done |].
  eapply grid_set_shape; [| done]. by eapply grid_set_shape.
Qed.

(** *** Every operation keeps the invariants *)

Lemma create_entity_keeps (d : EntityData) (map : TileMap) (pos : Position)
    (d' : EntityData) (r : option Z) :
  shape d → partition_inv d → create_entity d map pos = Some (d', r) →
  shape d' ∧ partition_inv d' ∧ (grid_consistent d → grid_consistent d').
Proof.
  intros Hs Hp Hc. split; [by eapply create_entity_shape |].
  apply create_entity_Some in Hc
    as [(_ & -> & _) |
        (id & alive & ps & g & _ & Hnz & Ht & Hid & Hal & Hps & Hg & ->)];
    [done |].
  split.
  - apply arr_set_Some in Hal as [_ ->]. by apply create_partition.
  - intros Hgc. apply is_traversable_true in Ht as (Hv & Hocc & _).
    by apply (create_consistent d pos id).
Qed.

Lemma kill_entity_keeps (d : EntityData) (id : Z) (d' : EntityData) :
  shape d → partition_inv d → kill_entity d id = Some d' →
  shape d' ∧ partition_inv d' ∧ (grid_consistent d → grid_consistent d').
Proof.
  intros Hs Hp Hk.
  destruct (kill_entity_Some d id d' Hs Hp Hk)
    as [[_ ->] | (k & Hk' & Hid & Hkill)]; [done |].
  split; [by eapply kill_at_shape |]. split.
  - by destruct (kill_at_partition d k id d' Hs Hp Hk' Hid Hkill).
  - intros Hgc. by apply (kill_at_consistent d k id).
Qed.

Lemma move_entity_keeps (d : EntityData) (map : TileMap) (id : Z)
    (dir : Direction) (d' : EntityData) (moved : bool) :
  shape d → partition_inv d → move_entity d map id dir = Some (d', moved) →
  shape d' ∧ partition_inv d' ∧
  (grid_consistent d → id ∈ alive_list d → grid_consistent d').
Proof.
  intros Hs Hp Hm. split; [by eapply move_entity_shape |].
  apply move_entity_Some in Hm
    as (current & new_pos & Hcur & Hnew &
        [(_ & -> & _) | (_ & Ht & g1 & g2 & ps & Hg1 & Hg2 & Hps & ->)]);
    [done |].
  split; [exact Hp |]. intros Hgc Hin.
  apply is_traversable_true in Ht as (Hv & Hocc & _).
  apply (move_consistent d id current new_pos g1); try done.
  rewrite is_occupied_valid in Hocc by done.
  destruct (grid_get (grid d) new_pos) as [[e |] |]; done.
Qed.

Lemma get_new_position_defined (current : Position) (dir : Direction) :
  GRID_WIDTH <= INT_MAX → GRID_HEIGHT <= INT_MAX →
  is_valid_position current = true →
  is_Some (get_new_position current dir).
Proof.
  intros Hw Hh Hv. apply is_valid_position_true in Hv.
  destruct dir; simpl; try (by eexists).
  - rewrite int_sub_Some; [by eexists |]. unfold int_range, INT_MIN in *. lia.
  - rewrite int_sub_Some; [by eexists |]. unfold int_range, INT_MIN in *. lia.
  - rewrite int_add_Some; [by eexists |]. unfold int_range, INT_MIN in *. lia.
  - rewrite int_add_Some; [by eexists |]. unfold int_range, INT_MIN in *. lia.
Qed.

Lemma create_entity_defined (d : EntityData) (map : TileMap) (pos : Position) :
  shape d → partition_inv d →
  (is_valid_position pos = true → is_Some (grid_get map pos)) →
  is_Some (create_entity d map pos).
Proof.
  intros Hs Hp Hm. destruct (decide (dead_count d = 0)) as [Hz | Hnz].
  - rewrite create_entity_full by done. by eexists.
  - destruct (is_traversable_defined d map pos Hs Hm) as [[|] Ht].
    + destruct (create_entity_success d map pos Hs Hp Hnz Ht)
        as (id & alive & ps & g & _ & _ & _ & _ & ->).
      by eexists.
    + rewrite create_entity_refused by done. by eexists.
Qed.

Lemma kill_entity_defined (d : EntityData) (id : Z) :
  shape d → partition_inv d → grid_consistent d →
  is_Some (kill_entity d id).
Proof.
  intros Hs Hp [Hfwd _]. destruct (decide (id ∈ alive_list d)) as [Hin | Hout].
  - destruct (kill_entity_alive d id Hs Hp Hin) as (k & Hk & Hid & ->).
    destruct (Hfwd id Hin) as (pos & Hpos & Hcell).
    apply (kill_at_defined d k id pos); try done.
    by eapply shape_grid_get_valid.
  - pose proof Hs as (_ & Hal & _).
    pose proof (partition_bounds d Hp) as [Ha _].
    rewrite kill_entity_absent by (done || lia). by eexists.
Qed.

Lemma move_entity_defined (d : EntityData) (map : TileMap) (id : Z)
    (dir : Direction) :
  GRID_WIDTH <= INT_MAX → GRID_HEIGHT <= INT_MAX →
  shape d → partition_inv d → grid_consistent d →
  map_covers map → id ∈ alive_list d →
  is_Some (move_entity d map id dir).
Proof.
  intros Hw Hh Hs Hp [Hfwd _] Hm Hin.
  destruct (Hfwd id Hin) as (current & Hcur & Hcell).
  pose proof (shape_grid_get_valid d current _ Hs Hcell) as Hv.
  destruct (get_new_position_defined current dir Hw Hh Hv) as [new_pos Hnew].
  destruct (is_traversable_defined d map new_pos Hs (Hm new_pos)) as [[|] Ht].
  - apply is_traversable_true in Ht as Ht'. destruct Ht' as (Hv' & _ & _).
    pose proof Hs as (Hps & _ & _ & Hgs).
    destruct (grid_shape_set (grid d) current None Hgs Hv) as [g1 Hg1].
    pose proof (grid_set_shape _ _ _ _ Hgs Hg1) as Hgs1.
    destruct (grid_shape_set g1 new_pos (Some id) Hgs1 Hv') as [g2 Hg2].
    pose proof (alive_in_range d id Hp Hin) as Hrange.
    unfold EntitySystem.move_entity.
    rewrite Hcur. simpl. rewrite Hnew. simpl. rewrite Ht. simpl.
    rewrite Hg1. simpl. rewrite Hg2. simpl.
    rewrite arr_set_in by lia. by eexists.
  - rewrite (move_entity_not_traversable d map id dir current new_pos)
      by done.
    by eexists.
Qed.

(** C3: on a pool of the declared shape on which the invariants hold
    (the partition invariant and grid/position consistency),
    [create_entity] (with any position) and [kill_entity] (with any id) leave
    a pool with grid/position consistency, and so does [move_entity] with
    an alive id, as its contract asks. Each of these calls is defined when
    the tile map covers
    the grid, and the pool it leaves has the declared shape and satisfies
    the partition invariant again. *)
Theorem operations_preserve_consistency (d : EntityData) :
  GRID_WIDTH <= INT_MAX → GRID_HEIGHT <= INT_MAX →
  shape d → partition_inv d → grid_consistent d →
  (∀ map pos,
     (is_valid_position pos = true → is_Some (grid_get map pos)) →
     ∃ d' r, create_entity d map pos = Some (d', r) ∧
             grid_consistent d' ∧ shape d' ∧ partition_inv d') ∧
  (∀ id,
     ∃ d', kill_entity d id = Some d' ∧
           grid_consistent d' ∧ shape d' ∧ partition_inv d') ∧
  (∀ map id dir,
     map_covers map → id ∈ alive_list d →
     ∃ d' moved, move_entity d map id dir = Some (d', moved) ∧
                 grid_consistent d' ∧ shape d' ∧ partition_inv d').
Proof.
  intros Hw Hh Hs Hp Hgc. split; [| split].
  - intros map pos Hm.
    destruct (create_entity_defined d map pos Hs Hp Hm) as [[d' r] Hc].
    exists d', r. split; [done |].
    destruct (create_entity_keeps d map pos d' r Hs Hp Hc) as (? & ? & ?).
    auto.
  - intros id. destruct (kill_entity_defined d id Hs Hp Hgc) as [d' Hk].
    exists d'. split; [done |].
    destruct (kill_entity_keeps d id d' Hs Hp Hk) as (? & ? & ?). auto.
  - intros map id dir Hm Hin.
    destruct (move_entity_defined d map id dir Hw Hh Hs Hp Hgc Hm Hin)
      as [[d' moved] Hmv].
    exists d', moved. split; [done |].
    destruct (move_entity_keeps d map id dir d' moved Hs Hp Hmv)
      as (? & ? & ?).
    auto.
Qed.

(** *** Reachable pools *)

Lemma initialize_keeps (d0 d : EntityData) :
  0 <= MAX_ENTITIES → freshly_declared d0 → initialize d0 = Some d →
  shape d ∧ partition_inv d ∧ grid_consistent d.
Proof.
  intros Hmax (Hs & Hac & Hdc) Hinit.
  destruct (initialize_result d0 Hs)
    as (d' & Hinit' & Hde & Hps & Hg & Hcells & Hac' & Hdc' & Hal).
  assert (d' = d) as -> by congruence.
  assert (shape d) as Hsd.
  { destruct Hs as (_ & Ha & _). unfold EntitySystem.shape.
    rewrite Hps, Hal, Hde, Hg, length_replicate, length_seqZ.
    split; [done |]. split; [done |]. split; [done |]. split.
    - by rewrite length_replicate.
    - apply Forall_replicate. by rewrite length_replicate. }
  split; [done |]. split.
  - unfold EntitySystem.partition_inv, alive_list, dead_list.
    rewrite Hac', Hdc', Hac, Hdc, Hde. simpl.
    split; [done |]. split; [done |]. split; [lia |].
    rewrite take_ge by (rewrite length_seqZ; lia). done.
  - split.
    + intros e He. unfold alive_list in He. rewrite Hac', Hac in He.
      simpl in He. by apply elem_of_nil in He.
    + intros p e Hcell.
      pose proof (shape_grid_get_valid d p _ Hsd Hcell) as Hv.
      rewrite (Hcells p Hv) in Hcell. done.
Qed.

Lemma reachable_shape_partition (d : EntityData) :
  0 <= MAX_ENTITIES → reachable d → shape d ∧ partition_inv d.
Proof.
  intros Hmax Hr.
  induction Hr as [d0 d Hfresh Hinit
                  | d map pos d' r _ [Hs Hp] Hc
                  | d id d' _ [Hs Hp] Hk
                  | d map id dir d' moved _ [Hs Hp] Hm].
  - destruct (initialize_keeps d0 d Hmax Hfresh Hinit) as (? & ? & _). done.
  - destruct (create_entity_keeps d map pos d' r Hs Hp Hc) as (? & ? & _).
    done.
  - destruct (kill_entity_keeps d id d' Hs Hp Hk) as (? & ? & _). done.
  - destruct (move_entity_keeps d map id dir d' moved Hs Hp Hm)
      as (? & ? & _).
    done.
Qed.

(** C2, as the source has it: in every pool reached from [initialize] on a
    freshly declared pool (one whose counters are 0 and MAX_ENTITIES when
    [initialize] is called, as [initialize] does not assign them) by calls
    of [create_entity], [kill_entity] and [move_entity] with any
    arguments, [alive_count + dead_count = MAX_ENTITIES], and
    [alive_indices[0..alive_count)] followed by [dead_indices[0..dead_count)]
    is a rearrangement of 0, ..., MAX_ENTITIES-1: it has no duplicates and
    its members are exactly the ids of [0, MAX_ENTITIES). *)
Theorem reachable_partition (d : EntityData) :
  0 <= MAX_ENTITIES → reachable d →
  alive_count d + dead_count d = MAX_ENTITIES ∧
  0 <= alive_count d ∧ 0 <= dead_count d ∧
  length (alive_list d) = Z.to_nat (alive_count d) ∧
  length (dead_list d) = Z.to_nat (dead_count d) ∧
  alive_list d ++ dead_list d ≡ₚ seqZ 0 MAX_ENTITIES ∧
  NoDup (alive_list d ++ dead_list d) ∧
  (∀ id, 0 <= id < MAX_ENTITIES ↔ id ∈ alive_list d ++ dead_list d).
Proof.
  intros Hmax Hr.
  destruct (reachable_shape_partition d Hmax Hr) as [Hs Hp].
  pose proof (partition_NoDup d Hp) as Hnd.
  pose proof (partition_bounds d Hp) as [Ha Hd].
  destruct Hs as (_ & Hal & Hde & _).
  destruct Hp as (? & ? & Hsum & Hperm).
  split; [done |]. split; [done |]. split; [done |].
  split; [unfold alive_list; rewrite length_take; lia |].
  split; [unfold dead_list; rewrite length_take; lia |].
  split; [done |]. split; [done |].
  intros id. rewrite Hperm, elem_of_seqZ. lia.
Qed.

(** *** The free list is a stack *)

Lemma create_entity_pops (d : EntityData) (map : TileMap) (pos : Position)
    (d' : EntityData) (id : Z) :
  shape d → partition_inv d →
  create_entity d map pos = Some (d', Some id) →
  dead_list d = dead_list d' ++ [id].
Proof.
  intros Hs Hp Hc.
  apply create_entity_Some in Hc
    as [([=] & _) |
        (id' & alive & ps & g & [= <-] & Hnz & _ & Hid & _ & _ & _ & ->)].
  destruct (dead_top d Hs Hp Hnz) as (id' & Hid' & Hl & _).
  assert (id' = id) as -> by congruence. done.
Qed.

Lemma kill_entity_pushes (d : EntityData) (id : Z) (d' : EntityData) :
  shape d → partition_inv d → id ∈ alive_list d →
  kill_entity d id = Some d' →
  dead_list d' = dead_list d ++ [id].
Proof.
  intros Hs Hp Hin Hk.
  destruct (kill_entity_Some d id d' Hs Hp Hk)
    as [[Hout _] | (k & Hk' & Hid & Hkill)]; [done |].
  by destruct (kill_at_partition d k id d' Hs Hp Hk' Hid Hkill) as (_ & _ & ?).
Qed.

(** The id pushed by [kill_entity] is the next one [create_entity] hands
    out. *)
Lemma kill_then_create (d : EntityData) (id : Z) (d1 : EntityData)
    (map : TileMap) (pos : Position) :
  shape d → partition_inv d → id ∈ alive_list d →
  kill_entity d id = Some d1 →
  is_traversable d1 map pos = Some true →
  ∃ d2, create_entity d1 map pos = Some (d2, Some id).
Proof.
  intros Hs Hp Hin Hk Ht.
  pose proof (kill_entity_pushes d id d1 Hs Hp Hin Hk) as Hpush.
  destruct (kill_entity_keeps d id d1 Hs Hp Hk) as (Hs1 & Hp1 & _).
  assert (dead_count d1 ≠ 0) as Hnz.
  { intros Hz. unfold dead_list at 1 in Hpush. rewrite Hz in Hpush.
    simpl in Hpush. by destruct (dead_list d). }
  destruct (create_entity_success d1 map pos Hs1 Hp1 Hnz Ht)
    as (id' & alive & ps & g & Hid & _ & _ & _ & Hc).
  destruct (dead_top d1 Hs1 Hp1 Hnz) as (id'' & Hid'' & Hl & _).
  assert (id'' = id') as -> by congruence.
  rewrite Hpush in Hl. apply app_inj_tail in Hl as [_ <-].
  eexists. exact Hc.
Qed.

(** ** Further properties of the operations *)

(** *** Bounds *)

(** X1: on a pool of the declared shape the positions [is_valid_position]
    accepts are exactly those at which the grid has a cell: reading
    [grid[pos.x][pos.y]] is inside the arrays if and only if the position is
    valid, and so is writing it. *)
Theorem valid_position_is_grid_cell (d : EntityData) (pos : Position)
    (v : option Z) :
  shape d →
  (is_valid_position pos = true ↔ is_Some (grid_get (grid d) pos)) ∧
  (is_valid_position pos = true ↔ is_Some (grid_set (grid d) pos v)).
Proof.
  intros (_ & _ & _ & Hg). split; split.
  - by apply grid_shape_get.
  - intros [cell Hcell]. by eapply grid_shape_get_valid.
  - by apply grid_shape_set.
  - intros [g' Hset].
    apply grid_set_Some in Hset as (column & column' & Hc & Hc' & _).
    apply arr_set_Some in Hc' as [Hy _].
    destruct (arr_get_is_Some column (pos_y pos) Hy) as [cell Hcell].
    apply (grid_shape_get_valid (grid d) pos cell Hg).
    apply grid_get_Some. eauto.
Qed.

(** X2: a position outside the grid is refused before anything is read or
    written. [create_entity] there returns empty and [move_entity] towards
    it returns false, with the pool unchanged, on every pool and for every
    tile map, also one that has no tile at all. *)
Theorem outside_grid_is_refused (d : EntityData) (map : TileMap) :
  (∀ pos, is_valid_position pos = false →
          create_entity d map pos = Some (d, None)) ∧
  (∀ id dir current new_pos,
     arr_get (positions d) id = Some current →
     get_new_position current dir = Some new_pos →
     is_valid_position new_pos = false →
     move_entity d map id dir = Some (d, false)).
Proof.
  split.
  - intros pos Hv. destruct (decide (dead_count d = 0)).
    + by apply create_entity_full.
    + apply create_entity_refused; [done |].
      apply is_traversable_false_gate. by left.
  - intros id dir current new_pos Hcur Hnew Hv.
    apply (move_entity_not_traversable d map id dir current new_pos);
      try done.
    apply is_traversable_false_gate. by left.
Qed.

(** *** [get_new_position] *)

(** X3: the four directions come in opposite pairs. From a position with
    [int] coordinates, a step NORTH is undone by a step SOUTH and the other
    way round, a step EAST by a step WEST and the other way round; each
    step changes one coordinate by exactly one. *)
Theorem get_new_position_opposite (p q : Position) :
  int_range (pos_x p) → int_range (pos_y p) →
  (get_new_position p NORTH = Some q →
   get_new_position q SOUTH = Some p ∧
   pos_x q = pos_x p ∧ pos_y q = pos_y p - 1) ∧
  (get_new_position p SOUTH = Some q →
   get_new_position q NORTH = Some p ∧
   pos_x q = pos_x p ∧ pos_y q = pos_y p + 1) ∧
  (get_new_position p EAST = Some q →
   get_new_position q WEST = Some p ∧
   pos_x q = pos_x p - 1 ∧ pos_y q = pos_y p) ∧
  (get_new_position p WEST = Some q →
   get_new_position q EAST = Some p ∧
   pos_x q = pos_x p + 1 ∧ pos_y q = pos_y p).
Proof.
  intros Hx Hy. destruct p as [x y]. simpl in Hx, Hy.
  repeat split; simpl in *;
    try (unfold int_sub in H; destruct (in_int _) eqn:E in H; [| done]);
    try (unfold int_add in H; destruct (in_int _) eqn:E in H; [| done]);
    simpl in H; injection H as <-; simpl; try done.
  - rewrite int_add_Some; [| by replace (y - 1 + 1) with y by lia].
    simpl. do 2 f_equal. lia.
  - rewrite int_sub_Some; [| by replace (y + 1 - 1) with y by lia].
    simpl. do 2 f_equal. lia.
  - rewrite int_add_Some; [| by replace (x - 1 + 1) with x by lia].
    simpl. do 2 f_equal. lia.
  - rewrite int_sub_Some; [| by replace (x + 1 - 1) with x by lia].
    simpl. do 2 f_equal. lia.
Qed.

(** *** [move_entity] *)

Lemma grid_set_restore {A : Type} (g g1 : list (list A)) (pos : Position)
    (c v : A) :
  grid_get g pos = Some c → grid_set g pos v = Some g1 →
  grid_set g1 pos c = Some g.
Proof.
  intros Hget Hset.
  apply grid_get_Some in Hget as (column & Hc & Hcell).
  apply grid_set_Some in Hset as (column0 & column' & Hc0 & Hc' & Hg1).
  assert (column0 = column) as -> by congruence.
  apply grid_set_Some. exists column', column.
  split; [by eapply arr_get_set_eq |].
  apply arr_set_Some in Hc' as [Hy ->].
  apply arr_set_Some in Hg1 as [Hx ->].
  apply arr_get_Some in Hc as [_ Hc]. apply arr_get_Some in Hcell as [_ Hcell].
  split; apply arr_set_Some; rewrite length_insert; (split; [done |]).
  - rewrite list_insert_insert_eq. symmetry. by apply list_insert_id.
  - rewrite list_insert_insert_eq. symmetry. by apply list_insert_id.
Qed.

Lemma move_entity_success (d : EntityData) (map : TileMap) (id : Z)
    (dir : Direction) (current new_pos : Position) :
  shape d →
  arr_get (positions d) id = Some current →
  is_valid_position current = true →
  get_new_position current dir = Some new_pos →
  is_traversable d map new_pos = Some true →
  ∃ g1 g2 ps,
    grid_set (grid d) current None = Some g1 ∧
    grid_set g1 new_pos (Some id) = Some g2 ∧
    arr_set (positions d) id new_pos = Some ps ∧
    move_entity d map id dir = Some (set_positions (set_grid d g2) ps, true).
Proof.
  intros Hs Hcur Hv Hnew Ht.
  apply is_traversable_true in Ht as Ht'. destruct Ht' as (Hv' & _ & _).
  pose proof Hs as (_ & _ & _ & Hgs).
  destruct (grid_shape_set (grid d) current None Hgs Hv) as [g1 Hg1].
  pose proof (grid_set_shape _ _ _ _ Hgs Hg1) as Hgs1.
  destruct (grid_shape_set g1 new_pos (Some id) Hgs1 Hv') as [g2 Hg2].
  pose proof (arr_get_bounds _ _ _ Hcur) as Hid.
  exists g1, g2, (<[Z.to_nat id := new_pos]> (positions d)).
  split; [done |]. split; [done |]. split; [by apply arr_set_in |].
  unfold EntitySystem.move_entity.
  rewrite Hcur. simpl. rewrite Hnew. simpl. rewrite Ht. simpl.
  rewrite Hg1. simpl. rewrite Hg2. simpl. by rewrite arr_set_in.
Qed.

(** X4: a successful move, member by member. On a pool of the declared
    shape, let [current] be the valid position stored for [id] and let the
    computed destination [new_pos] be traversable. Then [move_entity]
    returns true; afterwards [positions[id]] is [new_pos], the cell at
    [new_pos] holds [id], the cell at [current] is empty (when it is another
    cell), every other cell and every other entity's position is as before,
    and the alive array, the free list and both counters are untouched. *)
Theorem move_entity_moves (d : EntityData) (map : TileMap) (id : Z)
    (dir : Direction) (current new_pos : Position) :
  shape d →
  arr_get (positions d) id = Some current →
  is_valid_position current = true →
  get_new_position current dir = Some new_pos →
  is_traversable d map new_pos = Some true →
  ∃ d', move_entity d map id dir = Some (d', true) ∧
        arr_get (positions d') id = Some new_pos ∧
        grid_get (grid d') new_pos = Some (Some id) ∧
        (current ≠ new_pos → grid_get (grid d') current = Some None) ∧
        (∀ p, p ≠ current → p ≠ new_pos →
              grid_get (grid d') p = grid_get (grid d) p) ∧
        (∀ e, e ≠ id → arr_get (positions d') e = arr_get (positions d) e) ∧
        alive_indices d' = alive_indices d ∧
        dead_indices d' = dead_indices d ∧
        alive_count d' = alive_count d ∧
        dead_count d' = dead_count d.
Proof.
  intros Hs Hcur Hv Hnew Ht.
  destruct (move_entity_success d map id dir current new_pos Hs Hcur Hv
              Hnew Ht) as (g1 & g2 & ps & Hg1 & Hg2 & Hps & Hm).
  eexists. split; [exact Hm |]. simpl.
  split; [by eapply arr_get_set_eq |].
  split; [by eapply grid_get_set_eq |].
  split; [| split; [| split]].
  - intros Hne. rewrite (grid_get_set_ne _ _ new_pos current _ Hg2)
      by congruence.
    by eapply grid_get_set_eq.
  - intros p Hp1 Hp2.
    rewrite (grid_get_set_ne _ _ new_pos p _ Hg2) by congruence.
    by rewrite (grid_get_set_ne _ _ current p _ Hg1) by congruence.
  - intros e He. by rewrite (arr_get_set_ne _ _ id e _ Hps) by congruence.
  - done.
Qed.

(** X5: [move_entity] changes the pool exactly when it returns true. In
    every defined call, on any pool and with any id, a result of false
    comes with the pool unchanged and a result of true with a changed pool;
    in both cases [alive_indices], [dead_indices], [alive_count] and
    [dead_count] are as before. *)
Theorem move_entity_result (d : EntityData) (map : TileMap) (id : Z)
    (dir : Direction) (d' : EntityData) (moved : bool) :
  move_entity d map id dir = Some (d', moved) →
  (moved = false ↔ d' = d) ∧
  alive_indices d' = alive_indices d ∧
  dead_indices d' = dead_indices d ∧
  alive_count d' = alive_count d ∧
  dead_count d' = dead_count d.
Proof.
  intros Hm.
  apply move_entity_Some in Hm
    as (current & new_pos & Hcur & Hnew &
        [(-> & -> & _) | (-> & Ht & g1 & g2 & ps & Hg1 & Hg2 & Hps & ->)]).
  - done.
  - split; [| done]. split; [done |]. intros Heq. exfalso.
    apply is_traversable_true in Ht as (Hv & Hocc & _).
    rewrite is_occupied_valid in Hocc by done.
    assert (grid_get (grid d) new_pos = Some (Some id)) as Hcell.
    { rewrite <- Heq. simpl. by eapply grid_get_set_eq. }
    rewrite Hcell in Hocc. done.
Qed.

(** X6: a move and the move back restore the pool. On a pool of the
    declared shape, let entity [id] stand on its cell [current] (the grid
    holds [id] there), let a move in direction [dir] succeed, and let
    [back] be a direction that leads from the new position to [current]
    (SOUTH after NORTH, WEST after EAST, ...). If the tile at [current] is
    traversable, the move in direction [back] succeeds as well and leaves
    exactly the pool the first move started from. *)
Theorem move_entity_there_and_back (d d1 : EntityData) (map : TileMap)
    (id : Z) (dir back : Direction) (current new_pos : Position)
    (tile : Tile) :
  shape d →
  arr_get (positions d) id = Some current →
  grid_get (grid d) current = Some (Some id) →
  get_new_position current dir = Some new_pos →
  move_entity d map id dir = Some (d1, true) →
  get_new_position new_pos back = Some current →
  grid_get map current = Some tile → traversable tile = true →
  move_entity d1 map id back = Some (d, true).
Proof.
  intros Hs Hcur Hown Hnew Hm Hback Htile Htrav.
  pose proof (shape_grid_get_valid d current _ Hs Hown) as Hv.
  apply move_entity_Some in Hm
    as (current' & new_pos' & Hcur' & Hnew' &
        [([=] & _) | (_ & Ht & g1 & g2 & ps & Hg1 & Hg2 & Hps & ->)]).
  assert (current' = current) as -> by congruence.
  assert (new_pos' = new_pos) as -> by congruence.
  apply is_traversable_true in Ht as (Hv' & Hocc & _).
  rewrite is_occupied_valid in Hocc by done.
  assert (grid_get (grid d) new_pos = Some None) as Hfree
    by (destruct (grid_get (grid d) new_pos) as [[e |] |]; done).
  assert (current ≠ new_pos) as Hne by (intros <-; congruence).
  set (d1 := set_positions (set_grid d g2) ps).
  assert (shape d1) as Hs1.
  { destruct Hs as (Hp & Ha & Hd & Hgs). unfold EntitySystem.shape. simpl.
    rewrite (arr_set_length _ _ _ _ Hps).
    split; [done |]. split; [done |]. split; [done |].
    eapply grid_set_shape; [| done]. by eapply grid_set_shape. }
  assert (arr_get (positions d1) id = Some new_pos) as Hcur1
    by (by eapply arr_get_set_eq).
  assert (grid_get g1 new_pos = Some None) as Hfree1
    by (by rewrite (grid_get_set_ne _ _ current new_pos _ Hg1)).
  pose proof (grid_set_restore g1 g2 new_pos None (Some id) Hfree1 Hg2) as Hr2.
  pose proof (grid_set_restore (grid d) g1 current (Some id) None Hown Hg1)
    as Hr1.
  assert (is_traversable d1 map current = Some true) as Ht1.
  { apply is_traversable_true. split; [done |]. split; [| eauto].
    rewrite is_occupied_valid by done. simpl.
    rewrite (grid_get_set_ne _ _ new_pos current _ Hg2) by congruence.
    by rewrite (grid_get_set_eq _ _ _ _ Hg1). }
  unfold EntitySystem.move_entity.
  rewrite Hcur1. simpl. rewrite Hback. simpl. rewrite Ht1. simpl.
  rewrite Hr2. simpl. rewrite Hr1. simpl.
  apply arr_set_Some in Hps as [Hid ->].
  rewrite arr_set_in by (rewrite length_insert; lia). simpl.
  rewrite list_insert_insert_eq.
  apply arr_get_Some in Hcur as [_ Hcur].
  rewrite (list_insert_id _ _ _ Hcur).
  unfold set_positions, set_grid. simpl. by destruct d.
Qed.

(** *** [create_entity] and [kill_entity] *)

(** X7: a successful [create_entity] hands out an id that was free. On a
    pool of the declared shape that satisfies the partition invariant, the
    returned id lies in [0, MAX_ENTITIES), was on the free list and not
    alive before the call and is alive and off the free list after it; the
    alive ids are the former ones followed by the new id; the cell at [pos]
    was valid and empty; no other cell and no other entity's position is
    changed. *)
Theorem create_entity_fresh_id (d : EntityData) (map : TileMap)
    (pos : Position) (d' : EntityData) (id : Z) :
  shape d → partition_inv d →
  create_entity d map pos = Some (d', Some id) →
  0 <= id < MAX_ENTITIES ∧
  (id ∉ alive_list d) ∧ id ∈ dead_list d ∧
  alive_list d' = alive_list d ++ [id] ∧ (id ∉ dead_list d') ∧
  is_valid_position pos = true ∧ grid_get (grid d) pos = Some None ∧
  (∀ p, p ≠ pos → grid_get (grid d') p = grid_get (grid d) p) ∧
  (∀ e, e ≠ id → arr_get (positions d') e = arr_get (positions d) e).
Proof.
  intros Hs Hp Hc.
  pose proof (create_entity_pops d map pos d' id Hs Hp Hc) as Hpop.
  destruct (create_entity_keeps d map pos d' (Some id) Hs Hp Hc)
    as (_ & Hp' & _).
  apply create_entity_Some in Hc
    as [([=] & _) |
        (id' & alive & ps & g & [= <-] & Hnz & Ht & Hid & Hal & Hps & Hg
         & ->)].
  destruct (dead_top d Hs Hp Hnz) as (id' & Hid' & _ & Hnotin & Hrange).
  assert (id' = id) as -> by congruence.
  apply is_traversable_true in Ht as (Hv & Hocc & _).
  rewrite is_occupied_valid in Hocc by done.
  apply arr_set_Some in Hal as [Hac ->].
  split; [done |]. split; [done |].
  split; [rewrite Hpop, elem_of_app, list_elem_of_singleton; by right |].
  split; [by apply create_alive_list |]. split.
  - pose proof (partition_NoDup _ Hp') as Hnd.
    apply NoDup_app in Hnd as (_ & Hdisj & _). apply Hdisj.
    unfold alive_list at 1. simpl. rewrite create_alive_list by done.
    rewrite elem_of_app, list_elem_of_singleton. by right.
  - split; [done |].
    split; [destruct (grid_get (grid d) pos) as [[e |] |]; done |].
    split.
    + intros p Hne. simpl. by apply (grid_get_set_ne _ _ pos p _ Hg).
    + intros e Hne. simpl.
      by rewrite (arr_get_set_ne _ _ id e _ Hps) by congruence.
Qed.

Lemma kill_entity_alive_result (d : EntityData) (id : Z) :
  shape d → partition_inv d → grid_consistent d → id ∈ alive_list d →
  ∃ k pos g last,
    0 <= k < alive_count d ∧
    arr_get (alive_indices d) k = Some id ∧
    arr_get (positions d) id = Some pos ∧
    grid_get (grid d) pos = Some (Some id) ∧
    grid_set (grid d) pos None = Some g ∧
    arr_get (alive_indices d) (alive_count d - 1) = Some last ∧
    kill_entity d id
    = Some (mkEntityData (positions d)
              (<[Z.to_nat k := last]> (alive_indices d))
              (<[Z.to_nat (dead_count d) := id]> (dead_indices d))
              (alive_count d - 1) (dead_count d + 1) g).
Proof.
  intros Hs Hp Hgc Hin. pose proof Hgc as [Hfwd _].
  destruct (kill_entity_alive d id Hs Hp Hin) as (k & Hk & Hid & Heq).
  destruct (Hfwd id Hin) as (pos & Hpos & Hcell).
  pose proof (shape_grid_get_valid d pos _ Hs Hcell) as Hv.
  destruct (kill_at_defined d k id pos Hs Hp Hk Hpos Hv) as [d' Hkill].
  pose proof Hkill as Hkill'.
  apply kill_at_Some in Hkill'
    as (pos' & g & last & Hpos' & Hset & Hlast & _ & _ & ->).
  assert (pos' = pos) as -> by congruence.
  exists k, pos, g, last. rewrite Heq, Hkill. done.
Qed.

(** X8: [kill_entity] of an alive id, member by member. On a pool of the
    declared shape that satisfies the partition invariant and grid/position
    consistency, the call is defined; afterwards the id is no longer alive,
    the other alive ids are the same (their order may change), the id is
    the new top of the free list, [alive_count] is one less and
    [dead_count] one more, the cell the entity stood on is empty, every
    other cell is as before, and [positions] is not written: the dead id
    keeps its last position. *)
Theorem kill_entity_kills (d : EntityData) (id : Z) (pos : Position) :
  shape d → partition_inv d → grid_consistent d →
  id ∈ alive_list d → arr_get (positions d) id = Some pos →
  ∃ d', kill_entity d id = Some d' ∧
        (id ∉ alive_list d') ∧
        alive_list d ≡ₚ id :: alive_list d' ∧
        dead_list d' = dead_list d ++ [id] ∧
        alive_count d' = alive_count d - 1 ∧
        dead_count d' = dead_count d + 1 ∧
        grid_get (grid d') pos = Some None ∧
        (∀ p, p ≠ pos → grid_get (grid d') p = grid_get (grid d) p) ∧
        positions d' = positions d.
Proof.
  intros Hs Hp Hgc Hin Hpos.
  destruct (kill_entity_alive_result d id Hs Hp Hgc Hin)
    as (k & pos' & g & last & Hk & Hid & Hpos' & Hcell & Hset & Hlast & Hkill).
  assert (pos' = pos) as -> by congruence.
  eexists. split; [exact Hkill |].
  destruct (kill_entity_Some d id _ Hs Hp Hkill)
    as [[Hout _] | (k' & Hk' & Hid' & Hkat)]; [done |].
  destruct (kill_at_partition d k' id _ Hs Hp Hk' Hid' Hkat)
    as (_ & Hperm & Hdl).
  split.
  - pose proof (partition_NoDup_alive d Hp) as Hnd. rewrite Hperm in Hnd.
    by apply NoDup_cons in Hnd as [? _].
  - split; [done |]. split; [done |]. simpl.
    split; [done |]. split; [done |].
    split; [by eapply grid_get_set_eq |]. split; [| done].
    intros p Hne. by apply (grid_get_set_ne _ _ pos p _ Hset).
Qed.

(** X9: killing twice is killing once. On a pool of the declared shape
    that satisfies the partition invariant, if [kill_entity] with some id,
    alive or not, inside the capacity or not, leaves the pool [d1], then a
    second [kill_entity] with the same id leaves [d1] again: an id is never
    pushed onto the free list twice. *)
Theorem kill_entity_twice (d d1 : EntityData) (id : Z) :
  shape d → partition_inv d →
  kill_entity d id = Some d1 →
  kill_entity d1 id = Some d1.
Proof.
  intros Hs Hp Hk.
  destruct (kill_entity_keeps d id d1 Hs Hp Hk) as ((_ & Hal & _) & Hp1 & _).
  pose proof (partition_bounds d1 Hp1) as [Ha _].
  apply kill_entity_absent; [lia |].
  destruct (kill_entity_Some d id d1 Hs Hp Hk)
    as [[Hout ->] | (k & Hk' & Hid & Hkat)]; [done |].
  destruct (kill_at_partition d k id d1 Hs Hp Hk' Hid Hkat) as (_ & Hperm & _).
  pose proof (partition_NoDup_alive d Hp) as Hnd. rewrite Hperm in Hnd.
  by apply NoDup_cons in Hnd as [? _].
Qed.

(** X10: [kill_entity] with an id that is on the free list, or with an id
    outside [0, MAX_ENTITIES), is defined and changes nothing, on every
    pool of the declared shape that satisfies the partition invariant: the
    scan compares the id with alive entries only and never uses it as an
    index. *)
Theorem kill_entity_free_or_foreign (d : EntityData) (id : Z) :
  shape d → partition_inv d →
  id ∈ dead_list d ∨ ¬ (0 <= id < MAX_ENTITIES) →
  kill_entity d id = Some d.
Proof.
  intros Hs Hp Hid. pose proof Hs as (_ & Hal & _).
  pose proof (partition_bounds d Hp) as [Ha _].
  apply kill_entity_absent; [lia |]. intros Hin. destruct Hid as [Hd | Hr].
  - pose proof (partition_NoDup d Hp) as Hnd.
    apply NoDup_app in Hnd as (_ & Hdisj & _). by apply (Hdisj id).
  - apply Hr. by apply (alive_in_range d).
Qed.

(** X11: [create_entity] followed by [kill_entity] of the id it returned
    gives back what the pool held. On a pool of the declared shape that
    satisfies the partition invariant, the kill is defined, and after it
    the grid, both counters, the free list with its array, and the alive
    ids are those from before the create. (Only the position slot of the id
    and the alive slot behind the last alive entry keep what the create
    wrote.) *)
Theorem create_then_kill (d d1 : EntityData) (map : TileMap) (pos : Position)
    (id : Z) :
  shape d → partition_inv d →
  create_entity d map pos = Some (d1, Some id) →
  ∃ d2, kill_entity d1 id = Some d2 ∧
        grid d2 = grid d ∧
        alive_count d2 = alive_count d ∧
        dead_count d2 = dead_count d ∧
        dead_indices d2 = dead_indices d ∧
        alive_list d2 = alive_list d ∧
        dead_list d2 = dead_list d.
Proof.
  intros Hs Hp Hc.
  destruct (create_entity_keeps d map pos d1 (Some id) Hs Hp Hc)
    as (Hs1 & Hp1 & _).
  pose proof (partition_bounds d Hp) as [Ha Hd].
  pose proof Hs as (Hlps & Hlal & Hlde & _).
  pose proof Hp as (_ & _ & Hsum & _).
  apply create_entity_Some in Hc
    as [([=] & _) |
        (id' & alive & ps & g & [= <-] & Hnz & Ht & Hid & Hal & Hps & Hg
         & ->)].
  apply is_traversable_true in Ht as (Hv & Hocc & _).
  rewrite is_occupied_valid in Hocc by done.
  assert (grid_get (grid d) pos = Some None) as Hfree
    by (destruct (grid_get (grid d) pos) as [[e |] |]; done).
  pose proof (grid_set_restore _ _ pos None (Some id) Hfree Hg) as Hrestore.
  pose proof (arr_get_set_eq _ _ _ _ Hal) as Hlast.
  pose proof (arr_get_set_eq _ _ _ _ Hps) as Hpos.
  apply arr_set_Some in Hal as [Hac ->].
  match goal with |- context [kill_entity ?x] => set (d1 := x) in * end.
  assert (kill_entity d1 id = kill_at d1 (alive_count d) id) as ->.
  { apply kill_entity_found; simpl; try lia.
    - rewrite length_insert. lia.
    - by apply partition_NoDup_alive.
    - done. }
  eexists. split.
  - apply kill_at_Some. exists pos, (grid d), id. simpl.
    replace (alive_count d + 1 - 1) with (alive_count d) by lia.
    split; [done |]. split; [done |]. split; [done |].
    rewrite length_insert. split; [lia |]. split; [lia |]. reflexivity.
  - simpl. apply arr_get_Some in Hid as [_ Hid].
    assert (<[Z.to_nat (dead_count d - 1) := id]> (dead_indices d)
            = dead_indices d) as Hdead by (by apply list_insert_id).
    split; [done |]. split; [lia |]. split; [lia |]. split; [done |].
    split.
    + unfold alive_list. simpl.
      replace (alive_count d + 1 - 1) with (alive_count d) by lia.
      rewrite list_insert_insert_eq. by rewrite take_insert_ge.
    + unfold dead_list. simpl. rewrite Hdead.
      by replace (dead_count d - 1 + 1) with (dead_count d) by lia.
Qed.

(** X12: [kill_entity] frees the cell and the id together. On a pool of
    the declared shape that satisfies the partition invariant and
    grid/position consistency, after the kill of the alive entity [id]
    standing at [pos], a [create_entity] at [pos] (its tile being
    traversable) succeeds and returns [id] again; the grid, [positions],
    both counters and the free list are then as before the kill, and the
    alive ids are the same up to their order. *)
Theorem kill_then_create_same_cell (d : EntityData) (map : TileMap) (id : Z)
    (pos : Position) (tile : Tile) :
  shape d → partition_inv d → grid_consistent d →
  id ∈ alive_list d → arr_get (positions d) id = Some pos →
  grid_get map pos = Some tile → traversable tile = true →
  ∃ d1 d2, kill_entity d id = Some d1 ∧
           create_entity d1 map pos = Some (d2, Some id) ∧
           grid d2 = grid d ∧ positions d2 = positions d ∧
           alive_count d2 = alive_count d ∧ dead_count d2 = dead_count d ∧
           alive_list d2 ≡ₚ alive_list d ∧ dead_list d2 = dead_list d.
Proof.
  intros Hs Hp Hgc Hin Hpos Htile Htrav.
  destruct (kill_entity_alive_result d id Hs Hp Hgc Hin)
    as (k & pos' & g & last & Hk & Hid & Hpos' & Hcell & Hset & Hlast & Hkill).
  assert (pos' = pos) as -> by congruence.
  pose proof (shape_grid_get_valid d pos _ Hs Hcell) as Hv.
  destruct (kill_entity_keeps d id _ Hs Hp Hkill) as (Hs1 & Hp1 & _).
  destruct (kill_entity_Some d id _ Hs Hp Hkill)
    as [[Hout _] | (k' & Hk' & Hid' & Hkat)]; [done |].
  destruct (kill_at_partition d k' id _ Hs Hp Hk' Hid' Hkat)
    as (_ & Hperm & Hdl).
  pose proof (partition_bounds d Hp) as [Ha Hd].
  pose proof Hs as (Hlps & Hlal & Hlde & _).
  pose proof Hp as (_ & _ & Hsum & _).
  match type of Hkill with _ = Some ?x => set (d1 := x) in * end.
  assert (is_traversable d1 map pos = Some true) as Ht.
  { apply is_traversable_true. split; [done |]. split; [| eauto].
    rewrite is_occupied_valid by done. simpl.
    by rewrite (grid_get_set_eq _ _ _ _ Hset). }
  assert (dead_count d1 ≠ 0) as Hnz by (simpl; lia).
  destruct (create_entity_success d1 map pos Hs1 Hp1 Hnz Ht)
    as (id' & alive & ps & g2 & Htop & Hal & Hps & Hg2 & Hc).
  simpl in Htop, Hal, Hps, Hg2.
  replace (dead_count d + 1 - 1) with (dead_count d) in Htop by lia.
  rewrite (arr_get_set_eq (dead_indices d) _ (dead_count d) id) in Htop
    by (apply arr_set_in; lia).
  injection Htop as <-.
  assert (g2 = grid d) as ->.
  { pose proof (grid_set_restore _ _ pos (Some id) None Hcell Hset) as Hr.
    congruence. }
  assert (ps = positions d) as ->.
  { apply arr_set_Some in Hps as [_ ->].
    apply arr_get_Some in Hpos as [_ Hpos]. by apply list_insert_id. }
  exists d1. eexists. split; [done |]. split; [exact Hc |]. simpl.
  split; [done |]. split; [done |]. split; [lia |]. split; [lia |].
  apply arr_set_Some in Hal as [Hbound ->]. split.
  - unfold alive_list at 1. simpl.
    pose proof (create_alive_list d1 id Hbound) as Hcal. simpl in Hcal.
    rewrite Hcal, Hperm. by rewrite <- Permutation_cons_append.
  - unfold dead_list. simpl.
    replace (dead_count d + 1 - 1) with (dead_count d) by lia.
    by rewrite take_insert_ge.
Qed.

(** *** [initialize] again, and the counters *)

Lemma init_loop_frame (indices : list Z) :
  ∀ d d', init_loop indices d = Some d' →
          alive_indices d' = alive_indices d ∧
          alive_count d' = alive_count d ∧
          dead_count d' = dead_count d ∧
          grid d' = grid d.
Proof.
  induction indices as [| i rest IH]; intros d d' H; simpl in H.
  - by injection H as <-.
  - apply bind_Some in H as (dead & _ & H).
    apply bind_Some in H as (ps & _ & H).
    apply IH in H. simpl in H. done.
Qed.

Lemma initialize_shape (d d' : EntityData) :
  shape d → initialize d = Some d' → shape d'.
Proof.
  intros Hs Hinit.
  destruct (initialize_result d Hs)
    as (d'' & Hinit' & Hde & Hps & Hg & _ & _ & _ & Hal).
  assert (d'' = d') as -> by congruence.
  destruct Hs as (_ & Ha & _). unfold EntitySystem.shape.
  rewrite Hps, Hal, Hde, Hg, length_replicate, length_seqZ.
  split; [done |]. split; [done |]. split; [done |]. split.
  - by rewrite length_replicate.
  - apply Forall_replicate. by rewrite length_replicate.
Qed.

(** X13: [initialize] is idempotent, and what it leaves depends on the
    counters and [alive_indices] of its argument only. On pools of the
    declared shape: running it on its own result returns that result, and
    two pools that agree on [alive_count], [dead_count] and [alive_indices]
    are taken to the same pool whatever their free list, positions and
    grid held. *)
Theorem initialize_twice (d d1 : EntityData) :
  shape d → initialize d = Some d1 →
  initialize d1 = Some d1 ∧
  (∀ e, shape e →
        alive_count e = alive_count d → dead_count e = dead_count d →
        alive_indices e = alive_indices d →
        initialize e = Some d1).
Proof.
  intros Hs Hinit.
  destruct (initialize_result d Hs)
    as (d' & Hinit' & Hde & Hps & Hg & _ & Hac & Hdc & Hal).
  assert (d' = d1) as -> by congruence.
  assert (∀ e, shape e →
               alive_count e = alive_count d → dead_count e = dead_count d →
               alive_indices e = alive_indices d →
               initialize e = Some d1) as Hdet.
  { intros e Hse Heac Hedc Heal.
    destruct (initialize_result e Hse)
      as (e' & -> & Hde' & Hps' & Hg' & _ & Hac' & Hdc' & Hal').
    f_equal. destruct e', d1. simpl in *. congruence. }
  split; [| done].
  apply Hdet; [by eapply initialize_shape | done ..].
Qed.

Lemma kill_loop_sum (n : nat) (id : Z) :
  ∀ i d d', kill_loop n i id d = Some d' →
            alive_count d' + dead_count d' = alive_count d + dead_count d ∧
            alive_count d' <= alive_count d ∧
            positions d' = positions d.
Proof.
  induction n as [| n IH]; intros i d d' H; simpl in H;
    destruct (Z.ltb_spec i (alive_count d)); try done;
    try (injection H as <-; split; [done | split; [lia | done]]).
  apply bind_Some in H as (a & _ & H). destruct (a =? id).
  - apply bind_Some in H as (d1 & Hk & H).
    apply kill_at_Some in Hk as (pos & g & last & _ & _ & _ & _ & _ & ->).
    apply IH in H. simpl in H. destruct H as (? & ? & ?).
    split; [lia |]. split; [lia | done].
  - by apply IH in H.
Qed.

(** X14: no operation creates or loses an id slot. On any pool, with any
    arguments, every defined call of [initialize], [create_entity],
    [kill_entity] and [move_entity] leaves [alive_count + dead_count] as it
    was. [create_entity] raises [alive_count] by one exactly when it returns
    an id, [kill_entity] never raises it, and [kill_entity] never writes
    [positions]. *)
Theorem counters_sum_conserved (d d' : EntityData) :
  (initialize d = Some d' →
   alive_count d' + dead_count d' = alive_count d + dead_count d) ∧
  (∀ map pos r,
     create_entity d map pos = Some (d', r) →
     alive_count d' + dead_count d' = alive_count d + dead_count d ∧
     alive_count d' =
     alive_count d + match r with Some _ => 1 | None => 0 end) ∧
  (∀ id,
     kill_entity d id = Some d' →
     alive_count d' + dead_count d' = alive_count d + dead_count d ∧
     alive_count d' <= alive_count d ∧
     positions d' = positions d) ∧
  (∀ map id dir moved,
     move_entity d map id dir = Some (d', moved) →
     alive_count d' + dead_count d' = alive_count d + dead_count d).
Proof.
  split; [| split; [| split]].
  - unfold EntitySystem.initialize. intros H.
    apply bind_Some in H as (d1 & Hloop & [= <-]).
    apply init_loop_frame in Hloop as (_ & Ha & Hd & _). simpl. lia.
  - intros map pos r Hc.
    apply create_entity_Some in Hc
      as [(-> & -> & _) |
          (id & alive & ps & g & -> & _ & _ & _ & _ & _ & _ & ->)];
      simpl; lia.
  - intros id Hk. by apply kill_loop_sum in Hk.
  - intros map id dir moved Hm.
    apply move_entity_Some in Hm
      as (current & new_pos & _ & _ &
          [(_ & -> & _) | (_ & _ & g1 & g2 & ps & _ & _ & _ & ->)]);
      done.
Qed.

(** *** Pools reached with alive-id moves *)

Lemma reachable_alive_inv (d : EntityData) :
  0 <= MAX_ENTITIES → reachable_alive d →
  shape d ∧ partition_inv d ∧ grid_consistent d.
Proof.
  intros Hmax Hr.
  induction Hr as [d0 d Hfresh Hinit
                  | d map pos d' r _ (Hs & Hp & Hgc) Hc
                  | d id d' _ (Hs & Hp & Hgc) Hk
                  | d map id dir d' moved _ (Hs & Hp & Hgc) Hin Hm].
  - by apply (initialize_keeps d0 d).
  - destruct (create_entity_keeps d map pos d' r Hs Hp Hc) as (? & ? & ?).
    auto.
  - destruct (kill_entity_keeps d id d' Hs Hp Hk) as (? & ? & ?). auto.
  - destruct (move_entity_keeps d map id dir d' moved Hs Hp Hm)
      as (? & ? & ?).
    auto.
Qed.

Lemma reachable_alive_reachable (d : EntityData) :
  reachable_alive d → reachable d.
Proof.
  induction 1 as [d0 d Hfresh Hinit
                 | d map pos d' r _ IH Hc
                 | d id d' _ IH Hk
                 | d map id dir d' moved _ IH Hin Hm].
  - by eapply reach_initialize.
  - by eapply reach_create.
  - by eapply reach_kill.
  - by eapply reach_move.
Qed.

(** X15: grid/position consistency is an invariant of the pool when
    [move_entity] is only called with alive ids. In every pool reached from
    [initialize] on a freshly declared pool by calls of [create_entity] and
    [kill_entity] with any arguments and of [move_entity] with alive ids,
    every alive id [e] has a stored position whose grid cell holds [e], and
    every id held by a grid cell is alive and stored at that cell; such a
    pool is also reachable in the wider sense and satisfies the partition
    invariant. *)
Theorem reachable_alive_consistent (d : EntityData) :
  0 <= MAX_ENTITIES → reachable_alive d →
  (∀ e, e ∈ alive_list d →
        ∃ p, arr_get (positions d) e = Some p ∧
             grid_get (grid d) p = Some (Some e)) ∧
  (∀ p e, grid_get (grid d) p = Some (Some e) →
          e ∈ alive_list d ∧ arr_get (positions d) e = Some p) ∧
  reachable d ∧ partition_inv d.
Proof.
  intros Hmax Hr.
  destruct (reachable_alive_inv d Hmax Hr) as (_ & Hp & [Hfwd Hbwd]).
  split; [done |]. split; [done |].
  split; [by apply reachable_alive_reachable | done].
Qed.

(** X16: no two alive entities share a cell, and every alive entity stands
    inside the grid. In every pool reached with alive-id moves, the stored
    position of an alive id is a valid position, and two alive ids with the
    same stored position are the same id. *)
Theorem alive_entities_apart (d : EntityData) (e1 e2 : Z) (p1 p2 : Position) :
  0 <= MAX_ENTITIES → reachable_alive d →
  e1 ∈ alive_list d → e2 ∈ alive_list d →
  arr_get (positions d) e1 = Some p1 →
  arr_get (positions d) e2 = Some p2 →
  is_valid_position p1 = true ∧ (p1 = p2 → e1 = e2).
Proof.
  intros Hmax Hr H1 H2 Hp1 Hp2.
  destruct (reachable_alive_inv d Hmax Hr) as (Hs & _ & [Hfwd _]).
  destruct (Hfwd e1 H1) as (q1 & Hq1 & Hc1).
  destruct (Hfwd e2 H2) as (q2 & Hq2 & Hc2).
  assert (q1 = p1) as -> by congruence.
  assert (q2 = p2) as -> by congruence.
  split; [by eapply shape_grid_get_valid |].
  intros <-. congruence.
Qed.

(** X17: no call runs into undefined behaviour. In every pool reached with
    alive-id moves (grid dimensions being [int] values), [create_entity] is
    defined for every position, also outside the grid, when the tile map
    covers the grid; [kill_entity] is defined for every id, also a dead one
    or one outside the capacity; [move_entity] is defined for every alive id
    and every direction value when the tile map covers the grid. *)
Theorem reachable_alive_defined (d : EntityData) :
  GRID_WIDTH <= INT_MAX → GRID_HEIGHT <= INT_MAX → 0 <= MAX_ENTITIES →
  reachable_alive d →
  (∀ map pos, map_covers map → is_Some (create_entity d map pos)) ∧
  (∀ id, is_Some (kill_entity d id)) ∧
  (∀ map id dir, map_covers map → id ∈ alive_list d →
                 is_Some (move_entity d map id dir)).
Proof.
  intros Hw Hh Hmax Hr.
  destruct (reachable_alive_inv d Hmax Hr) as (Hs & Hp & Hgc).
  split; [| split].
  - intros map pos Hm. apply create_entity_defined; try done. apply Hm.
  - intros id. by apply kill_entity_defined.
  - intros map id dir Hm Hin. by apply move_entity_defined.
Qed.

Lemma occupants_replicate (w h : nat) :
  occupants (replicate w (replicate h None)) = [].
Proof.
  unfold occupants. induction w as [| w IH]; [done |].
  simpl. rewrite omap_app, IH, app_nil_r.
  clear. induction h as [| h IH]; [done |]. simpl. exact IH.
Qed.

(** Writing one cell changes the stored ids at one place. *)
Lemma occupants_set (g g' : list (list (option Z))) (pos : Position)
    (c v : option Z) :
  grid_get g pos = Some c → grid_set g pos v = Some g' →
  ∃ before after,
    occupants g = before ++ omap id [c] ++ after ∧
    occupants g' = before ++ omap id [v] ++ after.
Proof.
  intros Hget Hset.
  apply grid_get_Some in Hget as (column & Hc & Hcell).
  apply grid_set_Some in Hset as (column0 & column' & Hc0 & Hc' & Hg').
  assert (column0 = column) as -> by congruence.
  apply arr_set_Some in Hc' as [Hy ->]. apply arr_set_Some in Hg' as [Hx ->].
  apply arr_get_Some in Hc as [_ Hc]. apply arr_get_Some in Hcell as [_ Hcell].
  pose proof (take_drop_middle g _ _ Hc) as Hg.
  pose proof (take_drop_middle column _ _ Hcell) as Hcol.
  exists (omap id (concat (take (Z.to_nat (pos_x pos)) g))
          ++ omap id (take (Z.to_nat (pos_y pos)) column)),
         (omap id (drop (S (Z.to_nat (pos_y pos))) column)
          ++ omap id (concat (drop (S (Z.to_nat (pos_x pos))) g))).
  split.
  - rewrite <- Hg at 1. unfold occupants.
    rewrite concat_app, concat_cons, !omap_app. rewrite <- Hcol at 1.
    rewrite (cons_middle c), !omap_app, <- !app_assoc. done.
  - rewrite (insert_take_drop g) by lia.
    rewrite (insert_take_drop column) by lia. unfold occupants.
    rewrite concat_app, concat_cons, !omap_app.
    change (v :: ?l) with ([v] ++ l).
    rewrite !omap_app, <- !app_assoc. done.
Qed.

(** X18: the grid holds exactly the alive ids. In every pool reached with
    alive-id moves, the ids stored in the grid cells, read off column by
    column, are a rearrangement of [alive_indices[0..alive_count)]: each
    alive id is in exactly one cell, no cell holds another id, and the
    number of occupied cells is [alive_count]. *)
Theorem grid_holds_alive_ids (d : EntityData) :
  0 <= MAX_ENTITIES → reachable_alive d →
  occupants (grid d) ≡ₚ alive_list d ∧
  length (occupants (grid d)) = Z.to_nat (alive_count d).
Proof.
  intros Hmax Hr.
  assert (occupants (grid d) ≡ₚ alive_list d) as Hperm.
  { induction Hr as [d0 d Hfresh Hinit
                    | d map pos d' r Hr IH Hc
                    | d id d' Hr IH Hk
                    | d map id dir d' moved Hr IH Hin Hm].
    - destruct Hfresh as (Hs & Hac & _).
      destruct (initialize_result d0 Hs)
        as (d' & Hinit' & _ & _ & Hg & _ & Hac' & _ & _).
      assert (d' = d) as -> by congruence.
      rewrite Hg, occupants_replicate. unfold alive_list.
      by rewrite Hac', Hac.
    - destruct (reachable_alive_inv d Hmax Hr) as (Hs & Hp & Hgc).
      apply create_entity_Some in Hc
        as [(_ & -> & _) |
            (id & alive & ps & g & _ & _ & Ht & _ & Hal & _ & Hg & ->)];
        [done |].
      apply is_traversable_true in Ht as (Hv & Hocc & _).
      rewrite is_occupied_valid in Hocc by done.
      assert (grid_get (grid d) pos = Some None) as Hfree
        by (destruct (grid_get (grid d) pos) as [[e |] |]; done).
      destruct (occupants_set _ _ pos None (Some id) Hfree Hg)
        as (before & after & Hold & Hnew).
      apply arr_set_Some in Hal as [Hac ->].
      unfold alive_list at 1. simpl. rewrite create_alive_list by done.
      rewrite Hnew, <- IH, Hold. simpl.
      rewrite <- Permutation_cons_append. by rewrite Permutation_middle.
    - destruct (reachable_alive_inv d Hmax Hr) as (Hs & Hp & [Hfwd Hbwd]).
      destruct (kill_entity_Some d id d' Hs Hp Hk)
        as [[_ ->] | (k & Hk' & Hid & Hkat)]; [done |].
      destruct (kill_at_partition d k id d' Hs Hp Hk' Hid Hkat)
        as (_ & Hal & _).
      assert (id ∈ alive_list d) as Hin by (apply alive_list_elem; eauto).
      destruct (Hfwd id Hin) as (pos & Hpos & Hcell).
      apply kill_at_Some in Hkat
        as (pos' & g & last & Hpos' & Hset & _ & _ & _ & Hd').
      assert (pos' = pos) as -> by congruence.
      destruct (occupants_set _ _ pos (Some id) None Hcell Hset)
        as (before & after & Hold & Hnew).
      assert (grid d' = g) as -> by (by rewrite Hd').
      apply (Permutation_cons_inv (a := id)).
      rewrite <- Hal, <- IH, Hold, Hnew. simpl.
      by rewrite Permutation_middle.
    - destruct (reachable_alive_inv d Hmax Hr) as (Hs & Hp & [Hfwd Hbwd]).
      apply move_entity_Some in Hm
        as (current & new_pos & Hcur & Hnew &
            [(_ & -> & _) | (_ & Ht & g1 & g2 & ps & Hg1 & Hg2 & Hps & ->)]);
        [done |].
      destruct (Hfwd id Hin) as (p0 & Hp0 & Hown).
      assert (p0 = current) as -> by congruence.
      apply is_traversable_true in Ht as (Hv & Hocc & _).
      rewrite is_occupied_valid in Hocc by done.
      assert (grid_get (grid d) new_pos = Some None) as Hfree
        by (destruct (grid_get (grid d) new_pos) as [[e |] |]; done).
      assert (current ≠ new_pos) as Hne by (intros <-; congruence).
      assert (grid_get g1 new_pos = Some None) as Hfree1
        by (by rewrite (grid_get_set_ne _ _ current new_pos _ Hg1)).
      destruct (occupants_set _ _ current (Some id) None Hown Hg1)
        as (b1 & a1 & Hold1 & Hnew1).
      destruct (occupants_set _ _ new_pos None (Some id) Hfree1 Hg2)
        as (b2 & a2 & Hold2 & Hnew2).
      change (occupants g2 ≡ₚ alive_list d).
      rewrite <- IH, Hnew2, Hold1. simpl.
      rewrite <- !Permutation_middle. f_equiv.
      simpl in Hold2, Hnew1. by rewrite <- Hold2, Hnew1. }
  split; [done |]. rewrite Hperm.
  destruct (reachable_alive_inv d Hmax Hr) as ((_ & Hal & _) & Hp & _).
  pose proof (partition_bounds d Hp) as [Ha _].
  unfold alive_list. rewrite length_take. lia.
Qed.

(** *** Allocation *)

(** X19: a cell is handed out once. After a successful [create_entity] at
    [pos], on any pool, a second [create_entity] at [pos] returns empty and
    leaves the pool unchanged, whatever tile map it is given. *)
Theorem create_entity_same_cell_twice (d d1 : EntityData) (map map' : TileMap)
    (pos : Position) (id : Z) :
  create_entity d map pos = Some (d1, Some id) →
  create_entity d1 map' pos = Some (d1, None).
Proof.
  intros Hc.
  apply create_entity_Some in Hc
    as [([=] & _) |
        (id' & alive & ps & g & [= <-] & _ & Ht & _ & _ & _ & Hg & ->)].
  apply is_traversable_true in Ht as (Hv & _ & _).
  match goal with |- create_entity ?x _ _ = _ => set (d1 := x) end.
  destruct (decide (dead_count d1 = 0)) as [Hz | Hnz].
  - by apply create_entity_full.
  - apply create_entity_refused; [done |].
    apply is_traversable_false_gate. right. apply is_occupied_true.
    split; [done |]. exists id. simpl. by eapply grid_get_set_eq.
Qed.

(** X20: the pool never holds more than its capacity. In every pool
    reached from [initialize] on a freshly declared pool (counters 0 and
    MAX_ENTITIES when [initialize] is called) by calls of the three
    operations with any arguments,
    [0 <= alive_count <= MAX_ENTITIES]; when [alive_count] has reached
    [MAX_ENTITIES], [create_entity] returns empty for every position and
    every tile map and leaves the pool unchanged, and below
    [MAX_ENTITIES] the free list is not empty. *)
Theorem pool_capacity (d : EntityData) :
  0 <= MAX_ENTITIES → reachable d →
  0 <= alive_count d <= MAX_ENTITIES ∧
  (alive_count d = MAX_ENTITIES →
   ∀ map pos, create_entity d map pos = Some (d, None)) ∧
  (alive_count d < MAX_ENTITIES → dead_count d ≠ 0).
Proof.
  intros Hmax Hr.
  destruct (reachable_shape_partition d Hmax Hr) as [_ Hp].
  pose proof (partition_bounds d Hp) as [Ha _].
  destruct Hp as (_ & _ & Hsum & _).
  split; [done |]. split.
  - intros Hfull map pos. apply create_entity_full. lia.
  - lia.
Qed.

(** X21: ids are handed out from the top of the ascending free list. On a
    pool of the declared shape that satisfies the partition invariant and
    whose free list is 0, 1, ..., dead_count-1 (as [initialize] leaves it
    on a freshly declared pool, with dead_count = MAX_ENTITIES), a
    successful [create_entity] returns the id [dead_count - 1] and leaves
    the free list 0, 1, ..., dead_count-2: without kills in between, the
    ids come out as MAX_ENTITIES-1, MAX_ENTITIES-2, ..., and id 0 is the
    last one. *)
Theorem create_entity_descending (d d' : EntityData) (map : TileMap)
    (pos : Position) (id : Z) :
  shape d → partition_inv d →
  dead_list d = seqZ 0 (dead_count d) →
  create_entity d map pos = Some (d', Some id) →
  id = dead_count d - 1 ∧ dead_list d' = seqZ 0 (dead_count d').
Proof.
  intros Hs Hp Hasc Hc.
  pose proof (create_entity_pops d map pos d' id Hs Hp Hc) as Hpop.
  pose proof (partition_bounds d Hp) as [_ Hd].
  apply create_entity_Some in Hc
    as [([=] & _) |
        (id' & alive & ps & g & [= <-] & Hnz & _ & _ & _ & _ & _ & ->)].
  simpl in *. rewrite Hasc in Hpop.
  replace (dead_count d) with (Z.of_nat (S (Z.to_nat (dead_count d - 1))))
    in Hpop at 1 by lia.
  rewrite seqZ_S in Hpop. apply app_inj_tail in Hpop as [Hl Hid].
  split; [lia |]. rewrite <- Hl. f_equal. lia.
Qed.

Lemma initialize_free_list (d0 d : EntityData) :
  0 <= MAX_ENTITIES → freshly_declared d0 → initialize d0 = Some d →
  dead_list d = seqZ 0 (dead_count d) ∧ dead_count d = MAX_ENTITIES.
Proof.
  intros Hmax (Hs & _ & Hdc) Hinit.
  destruct (initialize_result d0 Hs)
    as (d' & Hinit' & Hde & _ & _ & _ & _ & Hdc' & _).
  assert (d' = d) as -> by congruence.
  unfold dead_list. rewrite Hde, Hdc', Hdc.
  split; [| done]. apply take_ge. rewrite length_seqZ. lia.
Qed.

End Facts.

(** ** Closed instances on the small pool *)

Ltac solve_shape :=
  unfold shape, grid_shape; simpl; repeat split; try reflexivity; repeat constructor.

Lemma demo_fresh_declared : freshly_declared 5 10 10 demo_fresh.
Proof. split; [solve_shape | done]. Qed.

Lemma demo_pool_initialize : initialize 5 demo_fresh = Some demo_pool.
Proof. reflexivity. Qed.

Lemma demo_used_create :
  create_entity 10 10 demo_pool demo_map (mkPosition 2 3)
  = Some (demo_used, Some 4).
Proof. reflexivity. Qed.

Lemma demo_pool_shape : shape 5 10 10 demo_pool.
Proof. solve_shape. Defined.

Lemma demo_used_shape : shape 5 10 10 demo_used.
Proof. solve_shape. Defined.

Lemma demo_map_covers : map_covers 10 10 demo_map.
Proof.
  intros pos Hv. apply is_valid_position_true in Hv. eexists.
  apply grid_get_replicate; lia.
Qed.

Lemma demo_pool_reachable : reachable 5 10 10 demo_pool.
Proof.
  apply (reach_initialize 5 10 10 demo_fresh);
    [exact demo_fresh_declared | exact demo_pool_initialize].
Qed.

Lemma demo_used_reachable : reachable 5 10 10 demo_used.
Proof.
  exact (reach_create 5 10 10 _ _ _ _ _ demo_pool_reachable demo_used_create).
Qed.

Lemma demo_five_reachable : reachable 5 10 10 demo_five.
Proof.
  pose proof demo_used_reachable as H0.
  assert (∀ d pos d' r,
            reachable 5 10 10 d →
            create_entity 10 10 d demo_map pos = Some (d', r) →
            reachable 5 10 10 d') as step
    by (intros d pos d' r; apply reach_create).
  pose proof (step demo_pool (mkPosition 0 0) _ _ demo_pool_reachable eq_refl)
    as H1.
  pose proof (step _ (mkPosition 1 0) _ _ H1 eq_refl) as H2.
  pose proof (step _ (mkPosition 2 0) _ _ H2 eq_refl) as H3.
  pose proof (step _ (mkPosition 3 0) _ _ H3 eq_refl) as H4.
  exact (step _ (mkPosition 4 0) _ _ H4 eq_refl).
Qed.

Lemma zero_le_five : 0 <= 5.
Proof. lia. Qed.

Lemma demo_pool_inv :
  shape 5 10 10 demo_pool ∧ partition_inv 5 demo_pool ∧
  grid_consistent demo_pool.
Proof.
  exact (initialize_keeps 5 10 10 demo_fresh demo_pool zero_le_five
           demo_fresh_declared demo_pool_initialize).
Qed.

Lemma demo_used_inv :
  shape 5 10 10 demo_used ∧ partition_inv 5 demo_used ∧
  grid_consistent demo_used.
Proof.
  destruct demo_pool_inv as (Hs & Hp & Hgc).
  destruct (create_entity_keeps 5 10 10 _ _ _ _ _ Hs Hp demo_used_create)
    as (? & ? & ?).
  auto.
Qed.

(** Id 2 is free in [demo_used]; killing it changes nothing. *)
Lemma kill_entity_not_alive_witness :
  shape 5 10 10 demo_used ∧ (alive_count demo_used <= 5) ∧
  (2 ∉ alive_list demo_used) ∧
  kill_entity demo_used 2 = Some demo_used.
Proof.
  assert (2 ∉ alive_list demo_used) as Habs.
  { unfold alive_list. simpl. rewrite list_elem_of_singleton. lia. }
  assert (alive_count demo_used <= 5) as Hc by (simpl; lia).
  split; [exact demo_used_shape |]. split; [exact Hc |].
  split; [exact Habs |].
  exact (kill_entity_not_alive 5 10 10 demo_used 2 demo_used_shape Hc Habs).
Defined.

(** Entity 4 of [demo_used] stands at (2,3); on a map without a traversable
    tile its move to the north is refused. *)
Lemma move_entity_blocked_witness :
  arr_get (positions demo_used) 4 = Some (mkPosition 2 3) ∧
  get_new_position (mkPosition 2 3) NORTH = Some (mkPosition 2 2) ∧
  is_traversable 10 10 demo_used (replicate 10 (replicate 10 (mkTile false)))
                 (mkPosition 2 2) = Some false ∧
  ∃ d', move_entity 10 10 demo_used
                    (replicate 10 (replicate 10 (mkTile false))) 4 NORTH
        = Some (d', false) ∧
        d' = demo_used ∧
        arr_get (positions d') 4 = Some (mkPosition 2 3) ∧
        grid_get (grid d') (mkPosition 2 3)
        = grid_get (grid demo_used) (mkPosition 2 3) ∧
        alive_count d' = alive_count demo_used ∧
        dead_count d' = dead_count demo_used.
Proof.
  split; [reflexivity |]. split; [reflexivity |]. split; [reflexivity |].
  apply (move_entity_blocked 10 10 demo_used _ 4 NORTH
           (mkPosition 2 3) (mkPosition 2 2)); reflexivity.
Defined.

(** Entity 4 with a direction value outside the enumerators stays put. *)
Lemma move_entity_onto_own_cell_witness :
  shape 5 10 10 demo_used ∧
  arr_get (positions demo_used) 4 = Some (mkPosition 2 3) ∧
  grid_get (grid demo_used) (mkPosition 2 3) = Some (Some 4) ∧
  move_entity 10 10 demo_used demo_map 4 (OTHER 7) = Some (demo_used, false).
Proof.
  split; [exact demo_used_shape |]. split; [reflexivity |].
  split; [reflexivity |].
  apply (move_entity_onto_own_cell 5 10 10 demo_used demo_map 4
           (mkPosition 2 3) demo_used_shape); reflexivity.
Defined.

(** C1 as the spec words it fails: [initialize] on a pool in use, here the
    pool with entity 4 alive, resets the arrays and leaves [alive_count] at
    1 and [dead_count] at 4. *)
Lemma initialize_leaves_counters :
  shape 5 10 10 demo_used ∧
  ∃ d', initialize 5 demo_used = Some d' ∧
        alive_count d' = 1 ∧ dead_count d' = 4 ∧
        ¬ initialized 5 10 10 d'.
Proof.
  split; [exact demo_used_shape |]. eexists. split; [reflexivity |].
  split; [reflexivity |]. split; [reflexivity |].
  intros (_ & Hac & _). simpl in Hac. lia.
Qed.

(** [initialize] on the pool in use: arrays reset, counters kept. *)
Lemma initialize_spec_witness :
  shape 5 10 10 demo_used ∧
  ∃ d', initialize 5 demo_used = Some d' ∧
        dead_indices d' = [0; 1; 2; 3; 4] ∧
        Forall (λ p, p = mkPosition 0 0) (positions d') ∧
        alive_count d' = alive_count demo_used ∧
        dead_count d' = dead_count demo_used ∧
        alive_indices d' = alive_indices demo_used.
Proof.
  split; [exact demo_used_shape |].
  destruct (initialize_spec 5 10 10 demo_used demo_used_shape)
    as (d' & Hinit & Hde & _ & _ & Hps & _ & Hac & Hdc & Hal).
  exists d'. repeat split; assumption.
Defined.

Lemma demo_four_kill : kill_entity demo_five 2 = Some demo_four.
Proof. reflexivity. Qed.

Lemma demo_zeroed_shape : shape 5 10 10 demo_zeroed.
Proof. solve_shape. Qed.

Lemma demo_four_shape : shape 5 10 10 demo_four.
Proof. solve_shape. Qed.

(** C2 as the spec words it fails: [initialize] does not assign the
    counters, so the pool it leaves has the counters it was called with.
    Called on a pool whose members are all zero it leaves
    [alive_count + dead_count = 0], not 5. Called on a pool in use (five
    creates, then the kill of id 2) it leaves the alive ids 4, 3, 0, 1 and
    the free list 0: id 0 is there twice and id 2 not at all. *)
Lemma initialize_keeps_stale_counters :
  (shape 5 10 10 demo_zeroed ∧
   ∃ d, initialize 5 demo_zeroed = Some d ∧
        reachable_after_initialize 5 10 10 d ∧
        alive_count d + dead_count d ≠ 5) ∧
  (shape 5 10 10 demo_four ∧ reachable 5 10 10 demo_four ∧
   ∃ d, initialize 5 demo_four = Some d ∧
        reachable_after_initialize 5 10 10 d ∧
        alive_list d ++ dead_list d = [4; 3; 0; 1; 0] ∧
        ¬ NoDup (alive_list d ++ dead_list d) ∧
        (2 ∉ alive_list d ++ dead_list d) ∧
        ¬ (alive_list d ++ dead_list d ≡ₚ seqZ 0 5)).
Proof.
  assert (¬ NoDup [4; 3; 0; 1; 0]) as Hdup.
  { intros H. apply NoDup_cons in H as [_ H]. apply NoDup_cons in H as [_ H].
    apply NoDup_cons in H as [Hn _]. apply Hn. rewrite !elem_of_cons. auto. }
  split.
  - split; [exact demo_zeroed_shape |]. eexists. split; [reflexivity |].
    split.
    + apply (rai_initialize 5 10 10 demo_zeroed);
        [exact demo_zeroed_shape | reflexivity].
    + simpl. lia.
  - split; [exact demo_four_shape |]. split.
    + exact (reach_kill 5 10 10 _ _ _ demo_five_reachable demo_four_kill).
    + eexists. split; [reflexivity |]. split.
      * apply (rai_initialize 5 10 10 demo_four);
          [exact demo_four_shape | reflexivity].
      * split; [reflexivity |]. split; [exact Hdup |]. split.
        -- change (2 ∉ [4; 3; 0; 1; 0]). rewrite !elem_of_cons, elem_of_nil.
           lia.
        -- change (¬ ([4; 3; 0; 1; 0] ≡ₚ seqZ 0 5)). intros Hperm.
           apply Hdup. rewrite Hperm. apply NoDup_seqZ.
Qed.

(** The partition after five creates. *)
Lemma reachable_partition_witness :
  0 <= 5 ∧ reachable 5 10 10 demo_five ∧
  alive_count demo_five + dead_count demo_five = 5 ∧
  alive_list demo_five ++ dead_list demo_five ≡ₚ seqZ 0 5.
Proof.
  split; [exact zero_le_five |]. split; [exact demo_five_reachable |].
  destruct (reachable_partition 5 10 10 demo_five zero_le_five
              demo_five_reachable)
    as (Hsum & _ & _ & _ & _ & Hperm & _).
  split; assumption.
Defined.

(** Why [move_entity] is taken with an alive id: it does not look whether
    its id is alive. In the initialized pool no id is alive and all stored
    positions are (0,0); moving id 0 south is carried out and enters the
    dead id 0 in the grid cell (0,1). *)
Lemma move_entity_dead_id_breaks_consistency :
  shape 5 10 10 demo_pool ∧ partition_inv 5 demo_pool ∧
  grid_consistent demo_pool ∧
  ∃ d', move_entity 10 10 demo_pool demo_map 0 SOUTH = Some (d', true) ∧
        grid_get (grid d') (mkPosition 0 1) = Some (Some 0) ∧
        alive_list d' = [] ∧
        ¬ grid_consistent d'.
Proof.
  destruct demo_pool_inv as (Hs & Hp & Hgc).
  split; [done |]. split; [done |]. split; [done |].
  eexists. split; [reflexivity |]. split; [reflexivity |].
  split; [reflexivity |].
  intros [_ Hbwd]. destruct (Hbwd (mkPosition 0 1) 0 eq_refl) as [Hin _].
  by apply elem_of_nil in Hin.
Qed.

Lemma int_max_bound : 10 <= INT_MAX.
Proof. unfold INT_MAX. lia. Qed.

Lemma demo_used_alive : 4 ∈ alive_list demo_used.
Proof. unfold alive_list. simpl. by apply list_elem_of_singleton. Qed.

(** One call of each operation on [demo_used], the move with the alive
    id 4. *)
Lemma operations_preserve_consistency_witness :
  shape 5 10 10 demo_used ∧ partition_inv 5 demo_used ∧
  grid_consistent demo_used ∧
  (∃ d' r, create_entity 10 10 demo_used demo_map (mkPosition 7 7)
           = Some (d', r) ∧ grid_consistent d') ∧
  (∃ d', kill_entity demo_used 4 = Some d' ∧ grid_consistent d') ∧
  (∃ d' moved, move_entity 10 10 demo_used demo_map 4 EAST
               = Some (d', moved) ∧ grid_consistent d').
Proof.
  destruct demo_used_inv as (Hs & Hp & Hgc).
  destruct (operations_preserve_consistency 5 10 10 demo_used
              int_max_bound int_max_bound Hs Hp Hgc)
    as (Hcreate & Hkill & Hmove).
  split; [exact Hs |]. split; [exact Hp |]. split; [exact Hgc |].
  split; [| split].
  - destruct (Hcreate demo_map (mkPosition 7 7)
                      (demo_map_covers (mkPosition 7 7)))
      as (d' & r & Hc & Hgc' & _).
    exists d', r. split; assumption.
  - destruct (Hkill 4) as (d' & Hk & Hgc' & _). exists d'. split; assumption.
  - destruct (Hmove demo_map 4 EAST demo_map_covers demo_used_alive)
      as (d' & moved & Hm & Hgc' & _).
    exists d', moved. split; assumption.
Defined.

(** [create_entity] at the free cell (2,3) of [demo_pool] succeeds with id 4
    and leads to [demo_used]; a second one at the now occupied cell is
    refused. *)
Lemma create_entity_spec_witness :
  shape 5 10 10 demo_pool ∧ partition_inv 5 demo_pool ∧
  shape 5 10 10 demo_used ∧ partition_inv 5 demo_used ∧
  (is_valid_position 10 10 (mkPosition 2 3) = true →
   is_Some (grid_get demo_map (mkPosition 2 3))) ∧
  (∃ d', create_entity 10 10 demo_pool demo_map (mkPosition 2 3)
         = Some (d', Some 4) ∧
         arr_get (dead_indices demo_pool) (dead_count demo_pool - 1)
         = Some 4 ∧
         dead_count d' = dead_count demo_pool - 1 ∧
         alive_count d' = alive_count demo_pool + 1 ∧
         arr_get (alive_indices d') (alive_count demo_pool) = Some 4 ∧
         arr_get (positions d') 4 = Some (mkPosition 2 3) ∧
         grid_get (grid d') (mkPosition 2 3) = Some (Some 4)) ∧
  (∃ d' r,
     create_entity 10 10 demo_used demo_map (mkPosition 2 3) = Some (d', r) ∧
     (r = None ↔
      dead_count demo_used = 0 ∨
      is_traversable 10 10 demo_used demo_map (mkPosition 2 3) = Some false) ∧
     (r = None → d' = demo_used)).
Proof.
  destruct demo_pool_inv as (Hs0 & Hp0 & _).
  destruct demo_used_inv as (Hs & Hp & _).
  pose proof (demo_map_covers (mkPosition 2 3)) as Hm.
  split; [exact Hs0 |]. split; [exact Hp0 |].
  split; [exact Hs |]. split; [exact Hp |]. split; [exact Hm |].
  split.
  - destruct (create_entity_spec 5 10 10 demo_pool demo_map (mkPosition 2 3)
                Hs0 Hp0 Hm)
      as (d' & r & Hc & _ & _ & _ & Hsucc).
    assert (r = Some 4) as Hr
      by (rewrite demo_used_create in Hc; congruence).
    subst r. exists d'. split; [exact Hc |].
    destruct (Hsucc 4 eq_refl)
      as (Htop & _ & Hdc & _ & Hac & _ & _ & Hal & Hps & Hg & _).
    repeat split; assumption.
  - destruct (create_entity_spec 5 10 10 demo_used demo_map (mkPosition 2 3)
                Hs Hp Hm)
      as (d' & r & Hc & Hiff & _ & Hsame & _).
    exists d', r. repeat split; try assumption; apply Hiff.
Defined.

(** Cell (2,3) of [demo_used] is occupied, (-1,3) is outside the grid. *)
Lemma occupancy_and_traversability_witness :
  shape 5 10 10 demo_used ∧
  is_occupied 10 10 demo_used (mkPosition 2 3) = Some true ∧
  is_occupied 10 10 demo_used (mkPosition (-1) 3) = Some false ∧
  (∀ map', is_traversable 10 10 demo_used map' (mkPosition 2 3) = Some false).
Proof.
  split; [exact demo_used_shape |]. split; [reflexivity |].
  split.
  - destruct (occupancy_and_traversability 5 10 10 demo_used demo_map
                (mkPosition (-1) 3) demo_used_shape) as (_ & Hinv & _).
    by apply Hinv.
  - destruct (occupancy_and_traversability 5 10 10 demo_used demo_map
                (mkPosition 2 3) demo_used_shape) as (_ & _ & _ & Hgate & _).
    apply Hgate. by right.
Defined.

(** C6: the free list is used as a stack. A successful [create_entity]
    returns the last entry of [dead_indices[0..dead_count)] and removes it;
    [kill_entity] of an alive id appends that id; so the id just killed is
    the one the next successful [create_entity] returns. With capacity 5,
    after five creates and the kill of the entity created third (id 2), the
    next create returns id 2. *)
Theorem lifo_recycling :
  (∀ MAX_ENTITIES GRID_WIDTH GRID_HEIGHT d map pos d' id,
     shape MAX_ENTITIES GRID_WIDTH GRID_HEIGHT d →
     partition_inv MAX_ENTITIES d →
     create_entity GRID_WIDTH GRID_HEIGHT d map pos = Some (d', Some id) →
     dead_list d = dead_list d' ++ [id]) ∧
  (∀ MAX_ENTITIES GRID_WIDTH GRID_HEIGHT d id d',
     shape MAX_ENTITIES GRID_WIDTH GRID_HEIGHT d →
     partition_inv MAX_ENTITIES d →
     id ∈ alive_list d →
     kill_entity d id = Some d' →
     dead_list d' = dead_list d ++ [id]) ∧
  (∀ MAX_ENTITIES GRID_WIDTH GRID_HEIGHT d id d1 map pos,
     shape MAX_ENTITIES GRID_WIDTH GRID_HEIGHT d →
     partition_inv MAX_ENTITIES d →
     id ∈ alive_list d →
     kill_entity d id = Some d1 →
     is_traversable GRID_WIDTH GRID_HEIGHT d1 map pos = Some true →
     ∃ d2, create_entity GRID_WIDTH GRID_HEIGHT d1 map pos
           = Some (d2, Some id)) ∧
  lifo_scenario = Some (2, Some 2).
Proof.
  split; [| split; [| split]].
  - intros. by eapply create_entity_pops.
  - intros. by eapply kill_entity_pushes.
  - intros. by eapply kill_then_create.
  - reflexivity.
Qed.

(** Kill of id 2 after five creates, then one more create. *)
Lemma lifo_recycling_witness :
  shape 5 10 10 demo_five ∧ partition_inv 5 demo_five ∧
  2 ∈ alive_list demo_five ∧
  ∃ d1, kill_entity demo_five 2 = Some d1 ∧
        is_traversable 10 10 d1 demo_map (mkPosition 5 5) = Some true ∧
        ∃ d2, create_entity 10 10 d1 demo_map (mkPosition 5 5)
              = Some (d2, Some 2).
Proof.
  destruct (reachable_shape_partition 5 10 10 demo_five zero_le_five
              demo_five_reachable) as [Hs Hp].
  assert (2 ∈ alive_list demo_five) as Hin.
  { unfold alive_list. simpl. rewrite !elem_of_cons. auto. }
  split; [exact Hs |]. split; [exact Hp |]. split; [exact Hin |].
  eexists. split; [reflexivity |]. split; [reflexivity |].
  destruct lifo_recycling as (_ & _ & Hlifo & _).
  apply (Hlifo 5 10 10 demo_five 2 _ demo_map (mkPosition 5 5) Hs Hp Hin);
    reflexivity.
Defined.

(** ** Closed instances of the further properties *)

Lemma demo_pool_reachable_alive : reachable_alive 5 10 10 demo_pool.
Proof.
  apply (ra_initialize 5 10 10 demo_fresh);
    [exact demo_fresh_declared | exact demo_pool_initialize].
Qed.

Lemma demo_used_reachable_alive : reachable_alive 5 10 10 demo_used.
Proof.
  exact (ra_create 5 10 10 _ _ _ _ _ demo_pool_reachable_alive
           demo_used_create).
Qed.

Lemma demo_five_reachable_alive : reachable_alive 5 10 10 demo_five.
Proof.
  assert (∀ d pos d' r,
            reachable_alive 5 10 10 d →
            create_entity 10 10 d demo_map pos = Some (d', r) →
            reachable_alive 5 10 10 d') as step
    by (intros d pos d' r; apply ra_create).
  pose proof (step demo_pool (mkPosition 0 0) _ _ demo_pool_reachable_alive
                eq_refl) as H1.
  pose proof (step _ (mkPosition 1 0) _ _ H1 eq_refl) as H2.
  pose proof (step _ (mkPosition 2 0) _ _ H2 eq_refl) as H3.
  pose proof (step _ (mkPosition 3 0) _ _ H3 eq_refl) as H4.
  exact (step _ (mkPosition 4 0) _ _ H4 eq_refl).
Qed.

Lemma int_range_small (z : Z) : 0 <= z <= 10 → int_range z.
Proof. unfold int_range, INT_MIN, INT_MAX. lia. Qed.

Lemma demo_five_alive (e : Z) : 0 <= e <= 4 → e ∈ alive_list demo_five.
Proof.
  intros He. unfold alive_list. simpl. rewrite !elem_of_cons.
  assert (e = 4 ∨ e = 3 ∨ e = 2 ∨ e = 1 ∨ e = 0) by lia. tauto.
Qed.

(** Cell (2,3) is a cell of the grid of [demo_used]. *)
Lemma valid_position_is_grid_cell_witness :
  shape 5 10 10 demo_used ∧
  (is_valid_position 10 10 (mkPosition 2 3) = true ↔
   is_Some (grid_get (grid demo_used) (mkPosition 2 3))).
Proof.
  split; [exact demo_used_shape |].
  exact (proj1 (valid_position_is_grid_cell 5 10 10 demo_used
                  (mkPosition 2 3) None demo_used_shape)).
Defined.

(** A create at (-1,0) with a tile map that has no tiles. *)
Lemma outside_grid_is_refused_witness :
  is_valid_position 10 10 (mkPosition (-1) 0) = false ∧
  create_entity 10 10 demo_used [] (mkPosition (-1) 0)
  = Some (demo_used, None).
Proof.
  split; [reflexivity |].
  apply (proj1 (outside_grid_is_refused 10 10 demo_used [])). reflexivity.
Defined.

(** North of (2,3) is (2,2), and south of that is (2,3) again. *)
Lemma get_new_position_opposite_witness :
  int_range 2 ∧ int_range 3 ∧
  get_new_position (mkPosition 2 3) NORTH = Some (mkPosition 2 2) ∧
  get_new_position (mkPosition 2 2) SOUTH = Some (mkPosition 2 3).
Proof.
  assert (int_range 2) as H2 by (apply int_range_small; lia).
  assert (int_range 3) as H3 by (apply int_range_small; lia).
  split; [exact H2 |]. split; [exact H3 |]. split; [reflexivity |].
  destruct (get_new_position_opposite (mkPosition 2 3) (mkPosition 2 2)
              H2 H3) as (HN & _).
  apply HN. reflexivity.
Defined.

(** Entity 4 of [demo_used] moves from (2,3) to (1,3). *)
Lemma move_entity_moves_witness :
  shape 5 10 10 demo_used ∧
  arr_get (positions demo_used) 4 = Some (mkPosition 2 3) ∧
  is_valid_position 10 10 (mkPosition 2 3) = true ∧
  get_new_position (mkPosition 2 3) EAST = Some (mkPosition 1 3) ∧
  is_traversable 10 10 demo_used demo_map (mkPosition 1 3) = Some true ∧
  ∃ d', move_entity 10 10 demo_used demo_map 4 EAST = Some (d', true) ∧
        arr_get (positions d') 4 = Some (mkPosition 1 3) ∧
        grid_get (grid d') (mkPosition 1 3) = Some (Some 4).
Proof.
  split; [exact demo_used_shape |]. split; [reflexivity |].
  split; [reflexivity |]. split; [reflexivity |]. split; [reflexivity |].
  destruct (move_entity_moves 5 10 10 demo_used demo_map 4 EAST
              (mkPosition 2 3) (mkPosition 1 3) demo_used_shape
              eq_refl eq_refl eq_refl eq_refl)
    as (d' & Hm & Hpos & Hcell & _).
  exists d'. repeat split; assumption.
Defined.

(** The same move returns true and the pool it leaves is another one. *)
Lemma move_entity_result_witness :
  ∃ d', move_entity 10 10 demo_used demo_map 4 EAST = Some (d', true) ∧
        (true = false ↔ d' = demo_used) ∧
        alive_indices d' = alive_indices demo_used ∧
        dead_indices d' = dead_indices demo_used.
Proof.
  eexists. split; [reflexivity |].
  destruct (move_entity_result 10 10 demo_used demo_map 4 EAST _ true
              eq_refl) as (Hiff & Hal & Hde & _).
  repeat split; try assumption; apply Hiff.
Defined.

(** East and back west. *)
Lemma move_entity_there_and_back_witness :
  shape 5 10 10 demo_used ∧
  ∃ d1, move_entity 10 10 demo_used demo_map 4 EAST = Some (d1, true) ∧
        move_entity 10 10 d1 demo_map 4 WEST = Some (demo_used, true).
Proof.
  split; [exact demo_used_shape |]. eexists. split; [reflexivity |].
  apply (move_entity_there_and_back 5 10 10 demo_used _ demo_map 4 EAST WEST
           (mkPosition 2 3) (mkPosition 1 3) (mkTile true) demo_used_shape);
    reflexivity.
Defined.

(** The create that leads from [demo_pool] to [demo_used] hands out id 4. *)
Lemma create_entity_fresh_id_witness :
  shape 5 10 10 demo_pool ∧ partition_inv 5 demo_pool ∧
  create_entity 10 10 demo_pool demo_map (mkPosition 2 3)
  = Some (demo_used, Some 4) ∧
  0 <= 4 < 5 ∧ (4 ∉ alive_list demo_pool) ∧ 4 ∈ dead_list demo_pool ∧
  alive_list demo_used = alive_list demo_pool ++ [4].
Proof.
  destruct demo_pool_inv as (Hs & Hp & _).
  split; [exact Hs |]. split; [exact Hp |]. split; [exact demo_used_create |].
  destruct (create_entity_fresh_id 5 10 10 demo_pool demo_map (mkPosition 2 3)
              demo_used 4 Hs Hp demo_used_create)
    as (Hr & Hna & Hd & Hal & _).
  repeat split; try assumption; apply Hr.
Defined.

(** Kill of entity 4 in [demo_used]. *)
Lemma kill_entity_kills_witness :
  shape 5 10 10 demo_used ∧ partition_inv 5 demo_used ∧
  grid_consistent demo_used ∧ 4 ∈ alive_list demo_used ∧
  arr_get (positions demo_used) 4 = Some (mkPosition 2 3) ∧
  ∃ d', kill_entity demo_used 4 = Some d' ∧
        (4 ∉ alive_list d') ∧
        grid_get (grid d') (mkPosition 2 3) = Some None ∧
        positions d' = positions demo_used.
Proof.
  destruct demo_used_inv as (Hs & Hp & Hgc).
  split; [exact Hs |]. split; [exact Hp |]. split; [exact Hgc |].
  split; [exact demo_used_alive |]. split; [reflexivity |].
  destruct (kill_entity_kills 5 10 10 demo_used 4 (mkPosition 2 3) Hs Hp Hgc
              demo_used_alive eq_refl)
    as (d' & Hk & Hna & _ & _ & _ & _ & Hcell & _ & Hps).
  exists d'. repeat split; assumption.
Defined.

Lemma kill_entity_twice_witness :
  shape 5 10 10 demo_used ∧ partition_inv 5 demo_used ∧
  ∃ d1, kill_entity demo_used 4 = Some d1 ∧ kill_entity d1 4 = Some d1.
Proof.
  destruct demo_used_inv as (Hs & Hp & _).
  split; [exact Hs |]. split; [exact Hp |]. eexists.
  split; [reflexivity |].
  apply (kill_entity_twice 5 10 10 demo_used _ 4 Hs Hp). reflexivity.
Defined.

(** Id 99 is outside the capacity 5. *)
Lemma kill_entity_free_or_foreign_witness :
  shape 5 10 10 demo_used ∧ partition_inv 5 demo_used ∧
  ¬ (0 <= 99 < 5) ∧
  kill_entity demo_used 99 = Some demo_used.
Proof.
  destruct demo_used_inv as (Hs & Hp & _).
  assert (¬ (0 <= 99 < 5)) as Hout by lia.
  split; [exact Hs |]. split; [exact Hp |]. split; [exact Hout |].
  apply (kill_entity_free_or_foreign 5 10 10 demo_used 99 Hs Hp). by right.
Defined.

(** Create at (2,3) in [demo_pool], then kill the id 4 it returned. *)
Lemma create_then_kill_witness :
  shape 5 10 10 demo_pool ∧ partition_inv 5 demo_pool ∧
  create_entity 10 10 demo_pool demo_map (mkPosition 2 3)
  = Some (demo_used, Some 4) ∧
  ∃ d2, kill_entity demo_used 4 = Some d2 ∧
        grid d2 = grid demo_pool ∧
        alive_count d2 = alive_count demo_pool ∧
        dead_count d2 = dead_count demo_pool ∧
        dead_list d2 = dead_list demo_pool.
Proof.
  destruct demo_pool_inv as (Hs & Hp & _).
  split; [exact Hs |]. split; [exact Hp |]. split; [exact demo_used_create |].
  destruct (create_then_kill 5 10 10 demo_pool demo_used demo_map
              (mkPosition 2 3) 4 Hs Hp demo_used_create)
    as (d2 & Hk & Hg & Hac & Hdc & _ & _ & Hdl).
  exists d2. repeat split; assumption.
Defined.

(** Kill entity 4 of [demo_used] and create at its cell (2,3) again. *)
Lemma kill_then_create_same_cell_witness :
  shape 5 10 10 demo_used ∧ partition_inv 5 demo_used ∧
  grid_consistent demo_used ∧ 4 ∈ alive_list demo_used ∧
  arr_get (positions demo_used) 4 = Some (mkPosition 2 3) ∧
  grid_get demo_map (mkPosition 2 3) = Some (mkTile true) ∧
  ∃ d1 d2, kill_entity demo_used 4 = Some d1 ∧
           create_entity 10 10 d1 demo_map (mkPosition 2 3)
           = Some (d2, Some 4) ∧
           grid d2 = grid demo_used ∧ positions d2 = positions demo_used.
Proof.
  destruct demo_used_inv as (Hs & Hp & Hgc).
  split; [exact Hs |]. split; [exact Hp |]. split; [exact Hgc |].
  split; [exact demo_used_alive |]. split; [reflexivity |].
  split; [reflexivity |].
  destruct (kill_then_create_same_cell 5 10 10 demo_used demo_map 4
              (mkPosition 2 3) (mkTile true) Hs Hp Hgc demo_used_alive
              eq_refl eq_refl eq_refl)
    as (d1 & d2 & Hk & Hc & Hg & Hps & _).
  exists d1, d2. repeat split; assumption.
Defined.

(** [initialize] on [demo_pool], which is its own result. *)
Lemma initialize_twice_witness :
  shape 5 10 10 demo_fresh ∧
  initialize 5 demo_fresh = Some demo_pool ∧
  initialize 5 demo_pool = Some demo_pool.
Proof.
  pose proof demo_fresh_declared as (Hs & _).
  split; [exact Hs |]. split; [exact demo_pool_initialize |].
  exact (proj1 (initialize_twice 5 10 10 demo_fresh demo_pool Hs
                  demo_pool_initialize)).
Defined.

(** The counters across the create that leads to [demo_used]. *)
Lemma counters_sum_conserved_witness :
  create_entity 10 10 demo_pool demo_map (mkPosition 2 3)
  = Some (demo_used, Some 4) ∧
  alive_count demo_used + dead_count demo_used
  = alive_count demo_pool + dead_count demo_pool ∧
  alive_count demo_used = alive_count demo_pool + 1.
Proof.
  split; [exact demo_used_create |].
  destruct (counters_sum_conserved 5 10 10 demo_pool demo_used)
    as (_ & Hcreate & _).
  exact (Hcreate demo_map (mkPosition 2 3) (Some 4) demo_used_create).
Defined.

Lemma reachable_alive_consistent_witness :
  0 <= 5 ∧ reachable_alive 5 10 10 demo_used ∧
  ∃ p, arr_get (positions demo_used) 4 = Some p ∧
       grid_get (grid demo_used) p = Some (Some 4).
Proof.
  split; [exact zero_le_five |]. split; [exact demo_used_reachable_alive |].
  destruct (reachable_alive_consistent 5 10 10 demo_used zero_le_five
              demo_used_reachable_alive) as (Hfwd & _).
  exact (Hfwd 4 demo_used_alive).
Defined.

(** Entities 4 and 3 of [demo_five] stand at (0,0) and (1,0). *)
Lemma alive_entities_apart_witness :
  0 <= 5 ∧ reachable_alive 5 10 10 demo_five ∧
  4 ∈ alive_list demo_five ∧ 3 ∈ alive_list demo_five ∧
  arr_get (positions demo_five) 4 = Some (mkPosition 0 0) ∧
  arr_get (positions demo_five) 3 = Some (mkPosition 1 0) ∧
  is_valid_position 10 10 (mkPosition 0 0) = true ∧
  (mkPosition 0 0 = mkPosition 1 0 → 4 = 3).
Proof.
  assert (4 ∈ alive_list demo_five) as H4 by (apply demo_five_alive; lia).
  assert (3 ∈ alive_list demo_five) as H3 by (apply demo_five_alive; lia).
  split; [exact zero_le_five |]. split; [exact demo_five_reachable_alive |].
  split; [exact H4 |]. split; [exact H3 |]. split; [reflexivity |].
  split; [reflexivity |].
  exact (alive_entities_apart 5 10 10 demo_five 4 3 (mkPosition 0 0)
           (mkPosition 1 0) zero_le_five demo_five_reachable_alive H4 H3
           eq_refl eq_refl).
Defined.

Lemma reachable_alive_defined_witness :
  10 <= INT_MAX ∧ 0 <= 5 ∧ reachable_alive 5 10 10 demo_used ∧
  is_Some (create_entity 10 10 demo_used demo_map (mkPosition 42 (-7))) ∧
  is_Some (kill_entity demo_used (-1)) ∧
  is_Some (move_entity 10 10 demo_used demo_map 4 (OTHER 9)).
Proof.
  split; [exact int_max_bound |]. split; [exact zero_le_five |].
  split; [exact demo_used_reachable_alive |].
  destruct (reachable_alive_defined 5 10 10 demo_used int_max_bound
              int_max_bound zero_le_five demo_used_reachable_alive)
    as (Hcreate & Hkill & Hmove).
  split; [exact (Hcreate demo_map _ demo_map_covers) |].
  split; [exact (Hkill (-1)) |].
  exact (Hmove demo_map 4 (OTHER 9) demo_map_covers demo_used_alive).
Defined.

(** Five entities, five occupied cells. *)
Lemma grid_holds_alive_ids_witness :
  0 <= 5 ∧ reachable_alive 5 10 10 demo_five ∧
  occupants (grid demo_five) ≡ₚ alive_list demo_five ∧
  length (occupants (grid demo_five)) = 5%nat.
Proof.
  split; [exact zero_le_five |]. split; [exact demo_five_reachable_alive |].
  exact (grid_holds_alive_ids 5 10 10 demo_five zero_le_five
           demo_five_reachable_alive).
Defined.

Lemma create_entity_same_cell_twice_witness :
  create_entity 10 10 demo_pool demo_map (mkPosition 2 3)
  = Some (demo_used, Some 4) ∧
  create_entity 10 10 demo_used [] (mkPosition 2 3) = Some (demo_used, None).
Proof.
  split; [exact demo_used_create |].
  exact (create_entity_same_cell_twice 10 10 demo_pool demo_used demo_map []
           (mkPosition 2 3) 4 demo_used_create).
Defined.

(** [demo_five] is full. *)
Lemma pool_capacity_witness :
  0 <= 5 ∧ reachable 5 10 10 demo_five ∧ alive_count demo_five = 5 ∧
  create_entity 10 10 demo_five demo_map (mkPosition 7 7)
  = Some (demo_five, None).
Proof.
  split; [exact zero_le_five |]. split; [exact demo_five_reachable |].
  split; [reflexivity |].
  destruct (pool_capacity 5 10 10 demo_five zero_le_five demo_five_reachable)
    as (_ & Hfull & _).
  exact (Hfull eq_refl demo_map (mkPosition 7 7)).
Defined.

(** The first id after [initialize] is 4 = MAX_ENTITIES - 1. *)
Lemma create_entity_descending_witness :
  shape 5 10 10 demo_pool ∧ partition_inv 5 demo_pool ∧
  dead_list demo_pool = seqZ 0 (dead_count demo_pool) ∧
  create_entity 10 10 demo_pool demo_map (mkPosition 2 3)
  = Some (demo_used, Some 4) ∧
  4 = dead_count demo_pool - 1 ∧
  dead_list demo_used = seqZ 0 (dead_count demo_used).
Proof.
  destruct demo_pool_inv as (Hs & Hp & _).
  destruct (initialize_free_list 5 10 10 demo_fresh demo_pool zero_le_five
              demo_fresh_declared demo_pool_initialize) as [Hasc _].
  split; [exact Hs |]. split; [exact Hp |]. split; [exact Hasc |].
  split; [exact demo_used_create |].
  exact (create_entity_descending 5 10 10 demo_pool demo_used demo_map
           (mkPosition 2 3) 4 Hs Hp Hasc demo_used_create).
Defined.

End EntitySystem.
